(** * A shallow embedding of [sbom.py]

    [sbom.py] scans the immediate subdirectories of a root directory for
    [requirements.txt] and [package.json], parses them, resolves indirect npm
    dependencies from [package-lock.json], stamps every record with the git
    commit hash of its repository and writes [sbom.csv] and [sbom.json].

    Text is modelled as [string] and [list ascii], a character being a
    Latin-1 code point (0 to 255); JSON scalars read from
    the manifests are modelled as strings (the values real manifests carry),
    and a parsed JSON object as the list of its items in file order. *)

From Stdlib Require Import String Ascii List Bool Arith NArith Lia Permutation Sorted.
Import ListNotations.
Open Scope list_scope.

(* ================================================================== *)
(** ** Python string helpers *)

Module Py.

(** [str.isspace] on one character read as a Latin-1 code point
    ([\t\n\v\f\r], [\x1c]..[\x1f], space, [\x85], [\xa0]); the same set
    as the regular-expression class [\s] of a [str] pattern. *)
Definition isspace (c : ascii) : bool :=
  let n := nat_of_ascii c in
  ((9 <=? n) && (n <=? 13)) || ((28 <=? n) && (n <=? 32))
  || (n =? 133) || (n =? 160).

Fixpoint lstrip_l (l : list ascii) : list ascii :=
  match l with
  | [] => []
  | c :: l' => if isspace c then lstrip_l l' else l
  end.

Definition strip_l (l : list ascii) : list ascii :=
  rev (lstrip_l (rev (lstrip_l l))).

(** [s.strip()] *)
Definition strip (s : string) : string :=
  string_of_list_ascii (strip_l (list_ascii_of_string s)).

(** [s.startswith(p)] *)
Definition startswith (p s : string) : bool := String.prefix p s.

(** [s.split(sep, 1)[0]] for a one-character [sep]: the text before the
    first occurrence of [sep]. *)
Fixpoint before_char (sep : ascii) (s : string) : string :=
  match s with
  | EmptyString => EmptyString
  | String c s' => if Ascii.eqb c sep then EmptyString
                   else String c (before_char sep s')
  end.

Fixpoint is_prefix_l (p s : list ascii) : bool :=
  match p, s with
  | [], _ => true
  | a :: p', b :: s' => Ascii.eqb a b && is_prefix_l p' s'
  | _ :: _, [] => false
  end.

(** [s.split(sep)] for a non-empty separator: occurrences are found from
    left to right without overlap; [skip] counts the characters of a found
    separator still to be consumed. *)
Fixpoint split_go (sep s : list ascii) (skip : nat) (acc : list ascii)
  : list (list ascii) :=
  match s with
  | [] => [rev acc]
  | c :: s' =>
      match skip with
      | S k => split_go sep s' k acc
      | 0 => if is_prefix_l sep s
             then rev acc :: split_go sep s' (pred (length sep)) []
             else split_go sep s' 0 (c :: acc)
      end
  end.

Definition split (sep s : string) : list string :=
  map string_of_list_ascii
      (split_go (list_ascii_of_string sep) (list_ascii_of_string s) 0 []).

(** [sub in s] *)
Fixpoint contains_l (p s : list ascii) : bool :=
  match s with
  | [] => is_prefix_l p []
  | _ :: s' => is_prefix_l p s || contains_l p s'
  end.

Definition contains (p s : string) : bool :=
  contains_l (list_ascii_of_string p) (list_ascii_of_string s).

(** Truthiness of an optional string: [None] and the empty string are false. *)
Definition truthy (o : option string) : bool :=
  match o with
  | Some (String _ _) => true
  | _ => false
  end.

End Py.

(* ================================================================== *)
(** ** The [re] module: a backtracking matcher

    Patterns are built from character classes, concatenation, greedy [*],
    greedy [?] and numbered capturing groups.  [rmatch] works in
    continuation-passing style, so alternatives are tried in the priority
    order of Python's [sre] engine; the first success is the match. *)

Module Re.

Inductive regex : Type :=
| RClass (p : ascii -> bool)
| RSeq (r1 r2 : regex)
| RStar (r : regex)
| ROpt (r : regex)
| RGroup (n : nat) (r : regex).

Definition RPlus (r : regex) : regex := RSeq r (RStar r).

(** Captures: group number, start and end offsets; newest binding first. *)
Definition caps := list (nat * (nat * nat)).

Fixpoint caps_get (n : nat) (cs : caps) : option (nat * nat) :=
  match cs with
  | [] => None
  | (m, v) :: cs' => if Nat.eqb n m then Some v else caps_get n cs'
  end.

Definition cont := nat -> list ascii -> caps -> option caps.

(** [fuel] bounds the iterations of each star; an iteration must consume
    input (Python's engine also stops a loop on an empty iteration). *)
Fixpoint rmatch (fuel : nat) (r : regex) (pos : nat) (s : list ascii)
         (cs : caps) (k : cont) {struct r} : option caps :=
  match r with
  | RClass p =>
      match s with
      | c :: s' => if p c then k (S pos) s' cs else None
      | [] => None
      end
  | RSeq r1 r2 =>
      rmatch fuel r1 pos s cs (fun pos' s' cs' => rmatch fuel r2 pos' s' cs' k)
  | RStar r1 =>
      (fix loop (f : nat) (pos : nat) (s : list ascii) (cs : caps)
         : option caps :=
         match f with
         | 0 => k pos s cs
         | S f' =>
             match rmatch fuel r1 pos s cs
                     (fun pos' s' cs' =>
                        if pos <? pos' then loop f' pos' s' cs' else None) with
             | Some res => Some res
             | None => k pos s cs
             end
         end) fuel pos s cs
  | ROpt r1 =>
      match rmatch fuel r1 pos s cs k with
      | Some res => Some res
      | None => k pos s cs
      end
  | RGroup n r1 =>
      rmatch fuel r1 pos s cs
        (fun pos' s' cs' => k pos' s' ((n, (pos, pos')) :: cs'))
  end.

(** [pattern.match(s)]: anchored at the start, not at the end. *)
Definition re_match (r : regex) (s : string) : option caps :=
  let l := list_ascii_of_string s in
  rmatch (S (length l)) r 0 l [] (fun _ _ cs => Some cs).

(** [m.group(n)] *)
Definition group (s : string) (cs : caps) (n : nat) : option string :=
  match caps_get n cs with
  | Some (i, j) => Some (substring i (j - i) s)
  | None => None
  end.

Definition is_op (c : ascii) : bool :=
  match c with
  | "<"%char | "="%char | ">"%char | "~"%char => true
  | _ => false
  end.

Definition not_op (c : ascii) : bool := negb (is_op c).
Definition not_newline (c : ascii) : bool := negb (Ascii.eqb c "010"%char).

(** [DEPENDENCY_PATTERN]: group 1 is [[^<=>~]+], group 2 is
    [\s*[<=>~]+\s*], and group 3, [.*] (any characters but a newline),
    is made optional by a trailing [?]. *)
Definition DEPENDENCY_PATTERN : regex :=
  RSeq (RGroup 1 (RPlus (RClass not_op)))
       (RSeq (RGroup 2 (RSeq (RStar (RClass Py.isspace))
                             (RSeq (RPlus (RClass is_op))
                                   (RStar (RClass Py.isspace)))))
             (ROpt (RGroup 3 (RStar (RClass not_newline))))).

End Re.

(* ================================================================== *)
(** ** Values, exceptions and the effect monad *)

(** A cell of the 2D list [sbom_data]: a Python string or [None]. *)
Inductive pyval : Type :=
| PStr (s : string)
| PNone.

Definition row := list pyval.

(** The exceptions that can reach the code. *)
Inductive exn : Type :=
| FileNotFoundError
| PermissionError
| UnicodeDecodeError
| JSONDecodeError
| IndexError
| IsADirectoryError
| NotADirectoryError
| OSError.

(** The result of [subprocess.run(cmd, capture_output=True, text=True)]:
    the process ran (exit code, stdout, stderr), or launching it raised. *)
Inductive run_result : Type :=
| Completed (returncode : nat) (stdout stderr : string)
| RunRaises (e : exn).

(** Reading a file: missing, not decodable/parsable, or its content. *)
Inductive file (A : Type) : Type :=
| Missing
| Invalid
| Parsed (a : A).
Arguments Missing {A}.
Arguments Invalid {A}.
Arguments Parsed {A} a.

(** Writing a file inside [with open(p, "w", encoding="utf-8") as f:]:
    everything is written; [open] raises (a read-only directory, [p] a
    directory), and nothing is written; or a write raises after the first
    [n] characters reached the file ([at_close]: when the [with] block
    flushes and closes the file, after the rest of its body ran). *)
Inductive write_outcome : Type :=
| WriteOk
| OpenRaises (e : exn)
| WriteRaises (e : exn) (n : nat) (at_close : bool).

(** [package.json]: its [dependencies] mapping, when the key is present. *)
Record PackageJson := { pj_dependencies : option (list (string * string)) }.

(** An entry of the [packages] mapping of [package-lock.json]. *)
Record LockEntry := {
  le_dev : option bool;
  le_version : option string;
  le_dependencies : option (list (string * string))
}.

Definition empty_entry : LockEntry :=
  {| le_dev := None; le_version := None; le_dependencies := None |}.

(** [package-lock.json]: its [packages] mapping (items in file order),
    when the key is present. *)
Record LockFile := { lf_packages : option (list (string * LockEntry)) }.

(** The read-only world the program observes. *)
Record Env := {
  env_git : string -> run_result;          (** [git log] run in a directory *)
  env_requirements : string -> file (list string);  (** lines of a file *)
  env_package_json : string -> file PackageJson;
  env_lock : string -> file LockFile;
  env_iterdir : string -> option exn;
    (** what iterating [Path(d).iterdir()] raises, if anything (a missing
        root, a file, an unreadable directory) *)
  env_write : string -> write_outcome   (** writing the file at a path *)
}.

(** An entry of [directory.iterdir()]. *)
Record DirEntry := {
  de_name : string;
  de_is_dir : bool;
  de_has_package_json : bool;
  de_has_requirements : bool
}.

(** The mutable world: standard output and the files written. *)
Record World := {
  w_log : list string;
  w_files : string -> option string
}.

Definition M (A : Type) : Type := World -> (exn + A) * World.

Definition ret {A} (a : A) : M A := fun w => (inr a, w).

Definition bind {A B} (m : M A) (f : A -> M B) : M B :=
  fun w => match m w with
           | (inl e, w') => (inl e, w')
           | (inr a, w') => f a w'
           end.

Definition raise {A} (e : exn) : M A := fun w => (inl e, w).

Notation "x <- m ;; k" := (bind m (fun x => k))
  (at level 61, m at next level, right associativity).

Definition print (s : string) : M unit :=
  fun w => (inr tt, {| w_log := w_log w ++ [s]; w_files := w_files w |}).

Definition set_file (p contents : string) (w : World) : World :=
  {| w_log := w_log w;
     w_files := fun q => if String.eqb q p then Some contents else w_files w q |}.

(** [with open(p, "w") as f:] and the writes of [contents] to [f]: what
    reaches the file, and the exception of [open] or of a write. *)
Definition write_file (env : Env) (p contents : string) : M unit :=
  fun w =>
    match env_write env p with
    | WriteOk => (inr tt, set_file p contents w)
    | OpenRaises e => (inl e, w)
    | WriteRaises e n false => (inl e, set_file p (substring 0 n contents) w)
    | WriteRaises _ n true => (inr tt, set_file p (substring 0 n contents) w)
    end.

(** The end of the [with] block: closing [f] flushes what is left. *)
Definition close_file (env : Env) (p : string) : M unit :=
  match env_write env p with
  | WriteRaises e _ true => raise e
  | _ => ret tt
  end.

(** ** [pathlib] on POSIX *)

(** [posixpath.join(a, b)] *)
Definition is_slash (c : ascii) : bool := Ascii.eqb c "/".

Definition endswith_slash (a : string) : bool :=
  match rev (list_ascii_of_string a) with
  | c :: _ => is_slash c
  | [] => false
  end.

Definition posix_join (a b : string) : string :=
  if Py.startswith "/" b then b
  else if String.eqb a "" || endswith_slash a then (a ++ b)%string
  else (a ++ "/" ++ b)%string.

(** [posixpath.splitroot(p)] without the drive: the root ([""], ["/"], or
    ["//"] when exactly two slashes lead) and the rest of [p]. *)
Definition split_root (p : string) : string * string :=
  match p with
  | String a r =>
      if is_slash a then
        match r with
        | String b r' =>
            if is_slash b then
              match r' with
              | String c _ => if is_slash c then ("/", r) else ("//", r')
              | EmptyString => ("//", r')
              end
            else ("/", r)
        | EmptyString => ("/", r)
        end
      else ("", p)
  | EmptyString => ("", p)
  end%string.

(** The root and the parts of [PurePosixPath(p)]: the rest split at ["/"],
    without empty parts and ["."]. *)
Definition path_part (x : string) : bool :=
  negb (String.eqb x "") && negb (String.eqb x ".").

Definition path_parts (p : string) : string * list string :=
  let (root, rel) := split_root p in
  (root, filter path_part (Py.split "/" rel)).

(** [str()] of a path from its root and parts. *)
Definition path_format (root : string) (parts : list string) : string :=
  match root, parts with
  | EmptyString, [] => "."
  | _, _ => root ++ String.concat "/" parts
  end%string.

(** [str(Path(d) / n)]: the two are joined by [posixpath.join] and the
    result is parsed.  A child [Path(d) / name] that [iterdir] yields
    renders the same way, [name] being one part ([name] holds no ["/"]
    and is neither empty nor ["."]). *)
Definition path_join (d n : string) : string :=
  let (root, parts) := path_parts (posix_join d n) in path_format root parts.

(** Decimal rendering of a natural number, as in an f-string. *)
Fixpoint digits_go (fuel n : nat) (acc : string) : string :=
  match fuel with
  | 0 => acc
  | S f =>
      let acc' := String (ascii_of_nat (48 + n mod 10)) acc in
      if n <? 10 then acc' else digits_go f (n / 10) acc'
  end.

Definition nat_str (n : nat) : string := digits_go (S n) n EmptyString.

(* ================================================================== *)
(** ** [git_commit_hash] *)

Definition ZEROS40 : string :=
  "0000000000000000000000000000000000000000".

Definition git_commit_hash (env : Env) (repo_path : string) : M string :=
  match env_git env repo_path with
  | Completed 0 stdout _ => ret (Py.strip stdout)
  | Completed _ _ stderr =>
      (* [check=True]: a non-zero exit raises [CalledProcessError] *)
      _ <- print ("Error: executing git command in " ++ repo_path)%string ;;
      _ <- print (Py.strip stderr) ;;
      ret ZEROS40
  | RunRaises FileNotFoundError =>
      _ <- print "'git' is not found, cannot determine commit hash" ;;
      ret EmptyString
  | RunRaises e => raise e
  end.

(* ================================================================== *)
(** ** [get_all_repos] *)

Record Repos := {
  requirements_repos : list string;
  package_json_repos : list string
}.

(** [list.sort()] on the repository paths; the paths are one name longer
    than [Path(dir_path)] and share its rendering as prefix, so [Path]
    ordering (on the parts) is the string ordering of the paths. *)
Fixpoint insert_sorted (x : string) (l : list string) : list string :=
  match l with
  | [] => [x]
  | y :: l' => if String.leb x y then x :: l else y :: insert_sorted x l'
  end.

Fixpoint sort (l : list string) : list string :=
  match l with
  | [] => []
  | x :: l' => insert_sorted x (sort l')
  end.

(** The loop of [get_all_repos] over the [entries] that
    [directory.iterdir()] yields, the two sorts and the message. *)
Definition get_all_repos (dir_path : string) (entries : list DirEntry)
  : M Repos :=
  let dirs := filter de_is_dir entries in
  let req := map (fun e => path_join dir_path (de_name e))
                 (filter de_has_requirements dirs) in
  let pkg := map (fun e => path_join dir_path (de_name e))
                 (filter de_has_package_json dirs) in
  let repos := {| requirements_repos := sort req;
                  package_json_repos := sort pkg |} in
  let total_repos := length (requirements_repos repos)
                     + length (package_json_repos repos) in
  _ <- print ("Found " ++ nat_str total_repos ++ " repos in '"
              ++ dir_path ++ "'")%string ;;
  ret repos.

(** [get_all_repos(dir_path)]: the first step of [directory.iterdir()]
    raises [e] when [env_iterdir env dir_path = Some e], before anything is
    printed; otherwise the listing is [entries]. *)
Definition get_all_repos_at (env : Env) (dir_path : string)
  (entries : list DirEntry) : M Repos :=
  match env_iterdir env dir_path with
  | Some e => raise e
  | None => get_all_repos dir_path entries
  end.

(* ================================================================== *)
(** ** [create_sbom_data]: the pip parser (lines 119-141) *)

(** The pure part of the loop body: from one line of [requirements.txt] to
    the name and version of its record, or [None] when the line is skipped. *)
Definition parse_requirement_line (line : string) : option (string * pyval) :=
  let raw_line := Py.strip line in
  if String.eqb raw_line EmptyString || Py.startswith "#" raw_line then None
  else
    let dependency_line := Py.strip (Py.before_char "#" raw_line) in
    if String.eqb dependency_line EmptyString then None
    else
      match Re.re_match Re.DEPENDENCY_PATTERN dependency_line with
      | None => None
      | Some m =>
          let name := match Re.group dependency_line m 1 with
                      | Some g => Py.strip g | None => EmptyString end in
          let operator := match Re.group dependency_line m 2 with
                          | Some g => g | None => EmptyString end in
          let version := Re.group dependency_line m 3 in
          let version :=
            if Py.truthy version
            then match version with
                 | Some v => PStr (Py.strip (operator ++ v))
                 | None => PNone
                 end
            else PNone in
          Some (name, version)
      end.

Definition HEADER : row :=
  map PStr ["name"; "version"; "type"; "path"; "commit_hash"]%string.

Section Pipeline.
Variable env : Env.

Fixpoint requirements_rows (repo_path requirements_path : string)
         (lines : list string) : M (list row) :=
  match lines with
  | [] => ret []
  | line :: lines' =>
      match parse_requirement_line line with
      | None => requirements_rows repo_path requirements_path lines'
      | Some (name, version) =>
          commit_hash <- git_commit_hash env repo_path ;;
          rest <- requirements_rows repo_path requirements_path lines' ;;
          ret ([PStr name; version; PStr "pip"; PStr requirements_path;
                PStr commit_hash] :: rest)
      end
  end.

Definition pip_repo_rows (repo_path : string) : M (list row) :=
  let requirements_path := path_join repo_path "requirements.txt" in
  match env_requirements env requirements_path with
  | Missing => raise FileNotFoundError
  | Invalid => raise UnicodeDecodeError
  | Parsed lines => requirements_rows repo_path requirements_path lines
  end.

(** ** The npm direct parser (lines 148-163) *)

Fixpoint package_json_rows (repo_path package_json_path : string)
         (deps : list (string * string)) : M (list row) :=
  match deps with
  | [] => ret []
  | (name, version) :: deps' =>
      commit_hash <- git_commit_hash env repo_path ;;
      rest <- package_json_rows repo_path package_json_path deps' ;;
      ret ([PStr name; PStr version; PStr "npm"; PStr package_json_path;
            PStr commit_hash] :: rest)
  end.

Definition npm_repo_rows (repo_path : string) : M (list row) :=
  let package_json_path := path_join repo_path "package.json" in
  match env_package_json env package_json_path with
  | Missing => raise FileNotFoundError
  | Invalid => raise JSONDecodeError
  | Parsed pj =>
      package_json_rows repo_path package_json_path
        (match pj_dependencies pj with Some d => d | None => [] end)
  end.

(** ** [get_indirect_dependencies] (lines 70-101) *)

(** [d.get(k)] on the items of a parsed JSON object. *)
Fixpoint lookup {A} (k : string) (items : list (string * A)) : option A :=
  match items with
  | [] => None
  | (k', v) :: items' => if String.eqb k k' then Some v else lookup k items'
  end.

(** [l[i]] on a list, raising [IndexError] out of range. *)
Definition index {A} (l : list A) (i : nat) : M A :=
  match nth_error l i with
  | Some x => ret x
  | None => raise IndexError
  end.

(** [package_info.get("dev") == True] *)
Definition is_dev (package_info : LockEntry) : bool :=
  match le_dev package_info with Some true => true | _ => false end.

Fixpoint lock_rows (repo_path lock_path : string)
         (direct_dependencies : list string)
         (packages : list (string * LockEntry)) : M (list row) :=
  match packages with
  | [] => ret []
  | (path, package_info) :: packages' =>
      if String.eqb path EmptyString
      then lock_rows repo_path lock_path direct_dependencies packages'
      else if is_dev package_info
      then lock_rows repo_path lock_path direct_dependencies packages'
      else
        package_name <- index (Py.split "node_modules/" path) 1 ;;
        if existsb (String.eqb package_name) direct_dependencies
        then lock_rows repo_path lock_path direct_dependencies packages'
        else
          let version := match le_version package_info with
                         | Some v => v | None => EmptyString end in
          commit_hash <- git_commit_hash env repo_path ;;
          rest <- lock_rows repo_path lock_path direct_dependencies packages' ;;
          ret ([PStr package_name; PStr version; PStr "npm"; PStr lock_path;
                PStr commit_hash] :: rest)
  end.

Definition lock_repo_rows (repo_path : string) : M (list row) :=
  let lock_path := path_join repo_path "package-lock.json" in
  match env_lock env lock_path with
  | Missing =>
      _ <- print ("Error: package-lock.json not found at " ++ lock_path)%string ;;
      ret []
  | Invalid => raise JSONDecodeError
  | Parsed lock_data =>
      let packages := match lf_packages lock_data with
                      | Some p => p | None => [] end in
      let root := match lookup EmptyString packages with
                  | Some e => e | None => empty_entry end in
      let direct_dependencies :=
        map fst (match le_dependencies root with Some d => d | None => [] end) in
      lock_rows repo_path lock_path direct_dependencies packages
  end.

(** [for repo_path in repos: rows += f(repo_path)] *)
Fixpoint concat_rows (f : string -> M (list row)) (repos : list string)
  : M (list row) :=
  match repos with
  | [] => ret []
  | r :: repos' =>
      rows <- f r ;;
      rest <- concat_rows f repos' ;;
      ret (rows ++ rest)
  end.

Definition get_indirect_dependencies (repos : Repos) : M (list row) :=
  concat_rows lock_repo_rows (package_json_repos repos).

Definition create_sbom_data (repos : Repos) : M (list row) :=
  pip <- concat_rows pip_repo_rows (requirements_repos repos) ;;
  npm <- concat_rows npm_repo_rows (package_json_repos repos) ;;
  indirect <- get_indirect_dependencies repos ;;
  ret (HEADER :: pip ++ npm ++ indirect).

End Pipeline.

(* ================================================================== *)
(** ** [create_sbom_csv]: [csv.writer(f, delimiter=",", lineterminator="\n")]

    The writer uses the [excel] dialect: minimal quoting (a field is quoted
    when it holds the delimiter, the quote character, or a line break),
    quotes doubled inside a quoted field, and [None] written as the empty
    string.  A row made of one empty field is written as a quoted empty
    field. *)

Module Csv.

Definition DQ : ascii := "034"%char.
Definition COMMA : ascii := ","%char.
Definition LF : ascii := "010"%char.
Definition CR : ascii := "013"%char.

Definition is_special (c : ascii) : bool :=
  Ascii.eqb c COMMA || Ascii.eqb c DQ || Ascii.eqb c LF || Ascii.eqb c CR.

Fixpoint double_quotes (l : list ascii) : list ascii :=
  match l with
  | [] => []
  | c :: l' => if Ascii.eqb c DQ then DQ :: DQ :: double_quotes l'
               else c :: double_quotes l'
  end.

Definition field_text (v : pyval) : list ascii :=
  match v with
  | PStr s => list_ascii_of_string s
  | PNone => []
  end.

Definition quote_field (l : list ascii) : list ascii :=
  if existsb is_special l then DQ :: double_quotes l ++ [DQ] else l.

Fixpoint join_fields (fs : list (list ascii)) : list ascii :=
  match fs with
  | [] => []
  | [f] => f
  | f :: fs' => f ++ COMMA :: join_fields fs'
  end.

(** [csv_writer.writerow(row)] *)
Definition write_row (r : row) : list ascii :=
  match map field_text r with
  | [[]] => [DQ; DQ; LF]
  | fs => join_fields (map quote_field fs) ++ [LF]
  end.

Definition write_rows (rows : list row) : string :=
  string_of_list_ascii (concat (map write_row rows)).

(** Reading a CSV file back: the state machine of [csv.reader] for the
    [excel] dialect (non-strict, no initial-space skipping) on text opened
    with newline translation off; a record ends at a line break outside quotes. *)
Inductive state := StartRecord | StartField | InField | InQuoted | QuoteInQuoted.

Definition is_nl (c : ascii) : bool := Ascii.eqb c LF || Ascii.eqb c CR.

Definition save (fld : list ascii) (rec : list string) : list string :=
  string_of_list_ascii (rev fld) :: rec.

Fixpoint parse_go (st : state) (fld : list ascii) (rec : list string)
         (out : list (list string)) (l : list ascii) : list (list string) :=
  match l with
  | [] =>
      match st with
      | StartRecord => rev out
      | _ => rev (rev (save fld rec) :: out)
      end
  | c :: l' =>
      let start_field (_ : unit) :=
        if Ascii.eqb c DQ then parse_go InQuoted [] rec out l'
        else if Ascii.eqb c COMMA then parse_go StartField [] (save [] rec) out l'
        else if is_nl c then parse_go StartRecord [] [] (rev (save [] rec) :: out) l'
        else parse_go InField [c] rec out l' in
      match st with
      | StartRecord => if is_nl c then parse_go StartRecord [] [] out l'
                       else start_field tt
      | StartField => start_field tt
      | InField =>
          if Ascii.eqb c COMMA then parse_go StartField [] (save fld rec) out l'
          else if is_nl c
          then parse_go StartRecord [] [] (rev (save fld rec) :: out) l'
          else parse_go InField (c :: fld) rec out l'
      | InQuoted =>
          if Ascii.eqb c DQ then parse_go QuoteInQuoted fld rec out l'
          else parse_go InQuoted (c :: fld) rec out l'
      | QuoteInQuoted =>
          if Ascii.eqb c DQ then parse_go InQuoted (c :: fld) rec out l'
          else if Ascii.eqb c COMMA
          then parse_go StartField [] (save fld rec) out l'
          else if is_nl c
          then parse_go StartRecord [] [] (rev (save fld rec) :: out) l'
          else parse_go InField (c :: fld) rec out l'
      end
  end.

Definition read_rows (text : string) : list (list string) :=
  parse_go StartRecord [] [] [] (list_ascii_of_string text).

End Csv.

Definition create_sbom_csv (env : Env) (dir_path : string) (sbom_data : list row)
  : M unit :=
  if length sbom_data <? 2
  then print "Terminating CSV SBOM creation..."
  else
    let save_path := path_join dir_path "sbom.csv" in
    _ <- write_file env save_path (Csv.write_rows sbom_data) ;;
    _ <- print ("Saved SBOM in CSV format to '" ++ save_path ++ "'")%string ;;
    close_file env save_path.

(* ================================================================== *)
(** ** [create_sbom_json]: [json.dump(json_data, jsonfile, indent=2)] *)

Module Json.

#[local] Set Warnings "-register-all".

Inductive json : Type :=
| JNull
| JStr (s : string)
| JArr (items : list json)
| JObj (items : list (string * json)).

Definition of_pyval (v : pyval) : json :=
  match v with
  | PStr s => JStr s
  | PNone => JNull
  end.

Definition hex_digit (n : nat) : ascii :=
  if n <? 10 then ascii_of_nat (48 + n) else ascii_of_nat (87 + n).

(** [py_encode_basestring_ascii]: backslash and quote escaped, the short
    escapes for [\b \f \n \r \t], any other character outside [' '..'~']
    as [\u00XX]. *)
Definition escape_char (c : ascii) : list ascii :=
  let n := nat_of_ascii c in
  let bs := "\"%char in
  if n =? 92 then [bs; bs]
  else if n =? 34 then [bs; "034"%char]
  else if n =? 8 then [bs; "b"%char]
  else if n =? 12 then [bs; "f"%char]
  else if n =? 10 then [bs; "n"%char]
  else if n =? 13 then [bs; "r"%char]
  else if n =? 9 then [bs; "t"%char]
  else if (n <? 32) || (126 <? n)
  then [bs; "u"%char; "0"%char; "0"%char; hex_digit (n / 16); hex_digit (n mod 16)]
  else [c].

Definition encode_string (s : string) : list ascii :=
  "034"%char :: concat (map escape_char (list_ascii_of_string s)) ++ ["034"%char].

Definition newline_indent (level : nat) : list ascii :=
  "010"%char :: repeat " "%char (2 * level).

Fixpoint sep_by (sep : list ascii) (items : list (list ascii)) : list ascii :=
  match items with
  | [] => []
  | [x] => x
  | x :: items' => x ++ sep ++ sep_by sep items'
  end.

(** [_iterencode] with [indent=2], item separator [,] and key separator
    [: ], at nesting [level]. *)
Fixpoint encode (level : nat) (v : json) : list ascii :=
  match v with
  | JNull => list_ascii_of_string "null"
  | JStr s => encode_string s
  | JArr [] => list_ascii_of_string "[]"
  | JArr items =>
      "["%char :: newline_indent (S level)
        ++ sep_by (","%char :: newline_indent (S level))
                  (map (encode (S level)) items)
        ++ newline_indent level ++ ["]"%char]
  | JObj [] => list_ascii_of_string "{}"
  | JObj items =>
      "{"%char :: newline_indent (S level)
        ++ sep_by (","%char :: newline_indent (S level))
                  (map (fun kv => encode_string (fst kv) ++ [":"%char; " "%char]
                                    ++ encode (S level) (snd kv)) items)
        ++ newline_indent level ++ ["}"%char]
  end.

Definition dumps (v : json) : string := string_of_list_ascii (encode 0 v).

End Json.

Definition key_of (v : pyval) : string :=
  match v with PStr s => s | PNone => "null" end.

(** [dict(zip(headers, row))] *)
Definition row_object (headers r : row) : Json.json :=
  Json.JObj (map (fun hv => (key_of (fst hv), Json.of_pyval (snd hv)))
                 (combine headers r)).

Definition sbom_json_value (sbom_data : list row) : Json.json :=
  let headers := hd [] sbom_data in
  let data_rows := tl sbom_data in
  Json.JArr (map (row_object headers) data_rows).

Definition create_sbom_json (env : Env) (dir_path : string) (sbom_data : list row)
  : M unit :=
  if length sbom_data <? 2
  then print "Terminating JSON SBOM creation..."
  else
    let save_path := path_join dir_path "sbom.json" in
    _ <- write_file env save_path (Json.dumps (sbom_json_value sbom_data)) ;;
    _ <- print ("Saved SBOM in JSON format to '" ++ save_path ++ "'")%string ;;
    close_file env save_path.

(* ================================================================== *)
(** ** The [__main__] block, after [get_cmd_arg] returned [dir_path];
    [entries] is the listing of [dir_path] in [iterdir] order, when
    [env_iterdir] lets it be listed. *)

Definition main (env : Env) (dir_path : string) (entries : list DirEntry)
  : M unit :=
  repos <- get_all_repos_at env dir_path entries ;;
  sbom_data <- create_sbom_data env repos ;;
  _ <- create_sbom_csv env dir_path sbom_data ;;
  create_sbom_json env dir_path sbom_data.

(* ================================================================== *)
(** * Properties *)

(** ** General lemmas on the monad and on strings *)

Lemma bind_inr {A B} (m : M A) (f : A -> M B) w b w' :
  bind m f w = (inr b, w') ->
  exists a w1, m w = (inr a, w1) /\ f a w1 = (inr b, w').
Proof.
  unfold bind. destruct (m w) as [[e|a] w1]; intro H; [discriminate | eauto].
Qed.

Lemma bind_inl {A B} (m : M A) (f : A -> M B) w e w' :
  m w = (inl e, w') -> bind m f w = (inl e, w').
Proof. unfold bind. intros ->. reflexivity. Qed.

Lemma bind_ret {A B} (a : A) (f : A -> M B) w : bind (ret a) f w = f a w.
Proof. reflexivity. Qed.

Lemma eqb_app_same_prefix (d s t : string) :
  String.eqb (d ++ s) (d ++ t) = String.eqb s t.
Proof. induction d as [|c d IH]; simpl; [reflexivity|]. now rewrite Ascii.eqb_refl. Qed.

(** ** Joining a single name to a path *)

(** A name that is one part of a path: not empty, not ["."], no ["/"]. *)
Definition path_name (n : string) : bool :=
  path_part n && forallb (fun c => negb (is_slash c)) (list_ascii_of_string n).

(** What [path_join d] puts in front of a name. *)
Definition path_prefix (d : string) : string :=
  let (root, parts) := path_parts d in
  match parts with
  | [] => root
  | _ :: _ => (root ++ String.concat "/" parts ++ "/")%string
  end.

Lemma list_ascii_of_string_append (a b : string) :
  list_ascii_of_string (a ++ b) = list_ascii_of_string a ++ list_ascii_of_string b.
Proof. induction a as [|c a IH]; simpl; congruence. Qed.

Lemma string_append_assoc (a b c : string) : ((a ++ b) ++ c)%string = (a ++ b ++ c)%string.
Proof. induction a as [|x a IH]; simpl; congruence. Qed.

Lemma split_go_slash_app x y acc :
  Py.split_go ["/"%char] (x ++ "/"%char :: y) 0 acc =
  Py.split_go ["/"%char] x 0 acc ++ Py.split_go ["/"%char] y 0 [].
Proof.
  revert acc. induction x as [|c x IH]; intro acc; [reflexivity|].
  cbn [app Py.split_go Py.is_prefix_l length pred].
  destruct (Ascii.eqb "/" c); cbn [andb]; rewrite IH; reflexivity.
Qed.

Lemma split_go_no_slash y acc :
  forallb (fun c => negb (is_slash c)) y = true ->
  Py.split_go ["/"%char] y 0 acc = [rev acc ++ y].
Proof.
  revert acc. induction y as [|c y IH]; intros acc H.
  - cbn [Py.split_go]. now rewrite app_nil_r.
  - apply andb_prop in H as [Hc Hy]. unfold is_slash in Hc.
    rewrite Ascii.eqb_sym in Hc. apply negb_true_iff in Hc.
    cbn [Py.split_go Py.is_prefix_l]. rewrite Hc. cbn [andb].
    rewrite IH by exact Hy. cbn [rev]. now rewrite <- app_assoc.
Qed.

Lemma py_split_slash_name rel n :
  forallb (fun c => negb (is_slash c)) (list_ascii_of_string n) = true ->
  Py.split "/" (rel ++ "/" ++ n) = Py.split "/" rel ++ [n].
Proof.
  intro Hn. unfold Py.split.
  rewrite !list_ascii_of_string_append. cbn [list_ascii_of_string app].
  rewrite split_go_slash_app, map_app, (split_go_no_slash _ [] Hn).
  cbn [map rev app]. now rewrite string_of_list_ascii_of_string.
Qed.

Lemma py_split_name n :
  forallb (fun c => negb (is_slash c)) (list_ascii_of_string n) = true ->
  Py.split "/" n = [n].
Proof.
  intro Hn. unfold Py.split. rewrite split_go_no_slash by exact Hn.
  cbn [map rev app]. now rewrite string_of_list_ascii_of_string.
Qed.

Lemma split_root_cat d : (fst (split_root d) ++ snd (split_root d))%string = d.
Proof.
  destruct d as [|a [|b [|c r]]]; cbn [split_root]; [reflexivity|..].
  - destruct (is_slash a) eqn:Ha; [|reflexivity].
    apply Ascii.eqb_eq in Ha. now subst.
  - destruct (is_slash a) eqn:Ha; [|reflexivity].
    apply Ascii.eqb_eq in Ha. subst.
    destruct (is_slash b) eqn:Hb; [|reflexivity].
    apply Ascii.eqb_eq in Hb. now subst.
  - destruct (is_slash a) eqn:Ha; [|reflexivity].
    apply Ascii.eqb_eq in Ha. subst.
    destruct (is_slash b) eqn:Hb; [|reflexivity].
    apply Ascii.eqb_eq in Hb. subst.
    destruct (is_slash c); reflexivity.
Qed.

(** Appending text that does not start with a slash keeps the root. *)
Lemma split_root_app_noslash d t :
  match t with String c _ => is_slash c = false | EmptyString => True end ->
  split_root (d ++ t) = (fst (split_root d), (snd (split_root d) ++ t)%string).
Proof.
  intro Ht.
  destruct d as [|a [|b [|c r]]].
  - destruct t as [|x t]; [reflexivity|]. cbn [append split_root].
    now rewrite Ht.
  - destruct t as [|x t]; cbn [append split_root];
      destruct (is_slash a); try reflexivity. now rewrite Ht.
  - destruct t as [|x t]; cbn [append split_root];
      destruct (is_slash a); try reflexivity;
      destruct (is_slash b); try reflexivity. now rewrite Ht.
  - cbn [append split_root].
    destruct (is_slash a); [|reflexivity].
    destruct (is_slash b); [|reflexivity].
    destruct (is_slash c); reflexivity.
Qed.

(** Appending anything to a non-empty path that does not end with a slash
    keeps the root. *)
Lemma split_root_app_noend d t :
  d <> EmptyString -> endswith_slash d = false ->
  split_root (d ++ t) = (fst (split_root d), (snd (split_root d) ++ t)%string).
Proof.
  intros Hd He.
  destruct d as [|a [|b [|c r]]]; [congruence|..];
    unfold endswith_slash in He; cbn [list_ascii_of_string rev app] in He;
    cbn [append split_root].
  - rewrite He. reflexivity.
  - destruct (is_slash a); [|reflexivity]. rewrite He. reflexivity.
  - destruct (is_slash a); [|reflexivity].
    destruct (is_slash b); [|reflexivity].
    destruct (is_slash c); reflexivity.
Qed.

Lemma endswith_slash_app a b :
  b <> EmptyString -> endswith_slash (a ++ b) = endswith_slash b.
Proof.
  intro Hb. unfold endswith_slash.
  rewrite list_ascii_of_string_append, rev_app_distr.
  destruct b as [|x b]; [congruence|]. simpl.
  destruct (rev (list_ascii_of_string b)); reflexivity.
Qed.

Lemma endswith_slash_split a :
  endswith_slash a = true ->
  exists a', a = (a' ++ "/")%string.
Proof.
  unfold endswith_slash. intro H.
  destruct (rev (list_ascii_of_string a)) as [|c l] eqn:E; [discriminate|].
  apply Ascii.eqb_eq in H. subst c.
  exists (string_of_list_ascii (rev l)).
  rewrite <- (string_of_list_ascii_of_string a).
  rewrite <- (rev_involutive (list_ascii_of_string a)), E. simpl.
  generalize (rev l). intro m. induction m as [|x m IH]; simpl; congruence.
Qed.

Lemma filter_path_part_name rel n :
  path_name n = true ->
  (rel = EmptyString \/ endswith_slash rel = true) ->
  filter path_part (Py.split "/" (rel ++ n)) =
  filter path_part (Py.split "/" rel) ++ [n].
Proof.
  intros Hn Hrel. unfold path_name in Hn. apply andb_prop in Hn as [Hp Hs].
  destruct Hrel as [-> | Hrel].
  - cbn [append]. rewrite py_split_name by exact Hs. simpl. now rewrite Hp.
  - destruct (endswith_slash_split rel Hrel) as [r' ->].
    rewrite string_append_assoc, py_split_slash_name by exact Hs.
    change (r' ++ "/")%string with (r' ++ "/" ++ EmptyString)%string.
    rewrite (py_split_slash_name r' EmptyString) by reflexivity.
    rewrite !filter_app. simpl. now rewrite Hp, app_nil_r.
Qed.

(** ** Concrete inputs used by the examples below *)

Definition HASH : string := "9fceb02d0ae598e95dc970b74767f19372d61af8".

Definition git_ok : run_result :=
  Completed 0 (HASH ++ String "010" EmptyString) EmptyString.

Definition lodash_lock : LockFile := {| lf_packages := Some [
  (EmptyString, {| le_dev := None; le_version := None;
                   le_dependencies := Some [("lodash", "^4.17.21")] |});
  ("node_modules/lodash", {| le_dev := None; le_version := Some "4.17.21";
                             le_dependencies := None |});
  ("node_modules/lodash/node_modules/semver",
     {| le_dev := None; le_version := Some "7.0.0"; le_dependencies := None |})
] |}%string.

Definition env_lodash : Env := {|
  env_git := fun _ => git_ok;
  env_requirements := fun _ => Missing;
  env_package_json := fun _ => Missing;
  env_lock := fun p => if String.eqb p "/r/app/package-lock.json"
                       then Parsed lodash_lock else Missing;
  env_iterdir := fun _ => None;
  env_write := fun _ => WriteOk
|}%string.

Definition world0 : World := {| w_log := []; w_files := fun _ => None |}.

(** ** The lockfile resolver on a nested entry *)

(** C1 (code_bug): on a lockfile whose root declares [lodash] directly and
    which holds [node_modules/lodash] and
    [node_modules/lodash/node_modules/semver] (version 7.0.0, no dev flag),
    [path.split('node_modules/')[1]] takes the segment after the FIRST
    separator: the resolver emits one record named [lodash/] with version
    7.0.0 and no record named [semver]. *)
Theorem indirect_nested_entry_uses_first_segment : forall w,
  lock_repo_rows env_lodash "/r/app" w =
  (inr [[PStr "lodash/"; PStr "7.0.0"; PStr "npm";
         PStr "/r/app/package-lock.json"; PStr HASH]], w).
Proof. intro w. vm_compute. reflexivity. Qed.

(** ** The pip parser on the two lines of the spec *)

Definition NL : string := String "010" EmptyString.

Lemma parse_numpy_line :
  parse_requirement_line ("numpy==1.2.3  # pinned" ++ NL) =
  Some ("numpy", PStr "==1.2.3")%string.
Proof. vm_compute. reflexivity. Qed.

(** C8: the line [numpy==1.2.3  # pinned] (as read from the file, with its
    line break) loses its inline comment and yields exactly one record, named
    [numpy] with version [==1.2.3], whatever commit hash the repository has. *)
Theorem requirements_numpy_pinned_line :
  forall env repo_path requirements_path w h w',
  git_commit_hash env repo_path w = (inr h, w') ->
  requirements_rows env repo_path requirements_path
    ["numpy==1.2.3  # pinned" ++ NL]%string w =
  (inr [[PStr "numpy"; PStr "==1.2.3"; PStr "pip"; PStr requirements_path;
         PStr h]], w').
Proof.
  intros env repo_path requirements_path w h w' Hgit.
  cbn [requirements_rows]. rewrite parse_numpy_line.
  unfold bind. rewrite Hgit. reflexivity.
Qed.

Lemma requirements_numpy_pinned_line_witness :
  git_commit_hash env_lodash "/r/app" world0 = (inr HASH, world0) /\
  requirements_rows env_lodash "/r/app" "/r/app/requirements.txt"
    ["numpy==1.2.3  # pinned" ++ NL]%string world0 =
  (inr [[PStr "numpy"; PStr "==1.2.3"; PStr "pip";
         PStr "/r/app/requirements.txt"; PStr HASH]], world0).
Proof.
  split.
  - vm_compute. reflexivity.
  - apply requirements_numpy_pinned_line. vm_compute. reflexivity.
Defined.

(** C2 (code_bug): for the bare line [flask] the operator group of
    [DEPENDENCY_PATTERN] is not optional, the match fails and the line is
    skipped: no record is emitted, and git is not even consulted. *)
Theorem requirements_bare_name_skipped :
  forall env repo_path requirements_path w,
  requirements_rows env repo_path requirements_path ["flask" ++ NL]%string w =
  (inr [], w).
Proof. intros. vm_compute. reflexivity. Qed.

(** ** [git_commit_hash] *)

Definition env_git_denied : Env := {|
  env_git := fun _ => RunRaises PermissionError;
  env_requirements := fun _ => Missing;
  env_package_json := fun _ => Missing;
  env_lock := fun _ => Missing;
  env_iterdir := fun _ => None;
  env_write := fun _ => WriteOk
|}.

(** C6 (counterexample): when launching git raises an [OSError] other than
    [FileNotFoundError] (here [PermissionError], e.g. a repository directory
    that cannot be entered), the exception is not caught: the function
    raises, and nothing is logged. *)
Lemma git_commit_hash_permission_error_raises :
  git_commit_hash env_git_denied "/r/app" world0 = (inl PermissionError, world0).
Proof. reflexivity. Qed.

(** C6 (amended): the outcome of [git_commit_hash], by the outcome of
    [subprocess.run]: exit 0 gives the stripped stdout, silently; a non-zero
    exit logs two lines and gives forty ASCII zeros; [FileNotFoundError]
    (git missing, or the directory missing) logs a warning and gives the empty
    string; any other exception propagates unchanged. *)
Theorem git_commit_hash_outcomes : forall env repo_path w,
  git_commit_hash env repo_path w =
  match env_git env repo_path with
  | Completed 0 stdout _ => (inr (Py.strip stdout), w)
  | Completed (S _) _ stderr =>
      (inr ZEROS40,
       {| w_log := w_log w ++ [("Error: executing git command in " ++ repo_path)%string;
                              Py.strip stderr];
          w_files := w_files w |})
  | RunRaises FileNotFoundError =>
      (inr EmptyString,
       {| w_log := w_log w ++ ["'git' is not found, cannot determine commit hash"%string];
          w_files := w_files w |})
  | RunRaises e => (inl e, w)
  end /\
  String.length ZEROS40 = 40 /\
  Forall (fun c => c = "0"%char) (list_ascii_of_string ZEROS40).
Proof.
  intros env repo_path w. split; [|split; [reflexivity | repeat constructor]].
  unfold git_commit_hash.
  destruct (env_git env repo_path) as [[|n] stdout stderr | e].
  - reflexivity.
  - cbn. now rewrite <- app_assoc.
  - destruct e; reflexivity.
Qed.

(** ** The two writers *)

Lemma path_parts_join d n :
  path_name n = true ->
  path_parts (posix_join d n) = (fst (path_parts d), snd (path_parts d) ++ [n]).
Proof.
  intro Hn.
  pose proof Hn as Hn'. unfold path_name in Hn'. apply andb_prop in Hn' as [Hp Hs].
  assert (Hc : match n with String c _ => is_slash c = false | EmptyString => True end).
  { destruct n as [|c n']; [exact I|].
    cbn [list_ascii_of_string forallb] in Hs. apply andb_prop in Hs as [Hs _].
    now apply negb_true_iff in Hs. }
  assert (Hst : Py.startswith "/" n = false).
  { destruct n as [|c n']; [vm_compute in Hp; discriminate Hp|].
    unfold Py.startswith. cbn [String.prefix].
    destruct (ascii_dec "/" c) as [E|]; [|reflexivity].
    subst c. vm_compute in Hc. discriminate Hc. }
  unfold posix_join. rewrite Hst.
  pose proof (split_root_cat d) as Hcat.
  destruct (String.eqb d "" || endswith_slash d) eqn:Hd; unfold path_parts.
  - rewrite (split_root_app_noslash d n Hc).
    destruct (split_root d) as [root rel] eqn:Er. cbn [fst snd] in *.
    rewrite filter_path_part_name; [reflexivity | exact Hn |].
    apply orb_prop in Hd as [Hd|Hd].
    + apply String.eqb_eq in Hd. rewrite Hd in Er. cbn in Er.
      injection Er as _ <-. now left.
    + destruct rel as [|x rel']; [now left|right].
      rewrite <- Hcat, endswith_slash_app in Hd by discriminate. exact Hd.
  - apply orb_false_elim in Hd as [Hd1 Hd2].
    assert (Hne : d <> EmptyString) by (intro; subst; discriminate Hd1).
    rewrite (split_root_app_noend d ("/" ++ n) Hne Hd2).
    destruct (split_root d) as [root rel]. cbn [fst snd].
    rewrite py_split_slash_name by exact Hs.
    rewrite filter_app. cbn [filter]. now rewrite Hp.
Qed.

Lemma concat_slash_snoc (l : list string) (x : string) :
  String.concat "/" (l ++ [x]) =
  match l with
  | [] => x
  | _ :: _ => (String.concat "/" l ++ "/" ++ x)%string
  end.
Proof.
  induction l as [|y l IH]; [reflexivity|].
  destruct l as [|z l]; [reflexivity|].
  change (String.concat "/" ((y :: z :: l) ++ [x]))
    with (y ++ "/" ++ String.concat "/" ((z :: l) ++ [x]))%string.
  rewrite IH.
  change (String.concat "/" (y :: z :: l))
    with (y ++ "/" ++ String.concat "/" (z :: l))%string.
  now rewrite !string_append_assoc.
Qed.

Lemma path_format_snoc root parts n :
  path_format root (parts ++ [n]) = (root ++ String.concat "/" (parts ++ [n]))%string.
Proof. destruct root, parts; reflexivity. Qed.

(** [Path(d) / name] is [path_prefix d] followed by [name]. *)
Lemma path_join_name d n :
  path_name n = true -> path_join d n = (path_prefix d ++ n)%string.
Proof.
  intro Hn. unfold path_join, path_prefix. rewrite (path_parts_join d n Hn).
  destruct (path_parts d) as [root parts]. cbn [fst snd].
  rewrite path_format_snoc, concat_slash_snoc.
  destruct parts; [reflexivity|]. now rewrite !string_append_assoc.
Qed.


Lemma sbom_json_csv_paths_differ d :
  String.eqb (path_join d "sbom.json") (path_join d "sbom.csv") = false.
Proof.
  rewrite !path_join_name by reflexivity. now rewrite eqb_app_same_prefix.
Qed.




(** ** Sorting the repository paths *)

Lemma insert_sorted_perm x l : Permutation (insert_sorted x l) (x :: l).
Proof.
  induction l as [|y l IH]; simpl; [reflexivity|].
  destruct (String.leb x y); [reflexivity|].
  rewrite IH. apply perm_swap.
Qed.

Lemma sort_perm l : Permutation (sort l) l.
Proof.
  induction l as [|x l IH]; simpl; [reflexivity|].
  rewrite insert_sorted_perm. now apply perm_skip.
Qed.

Lemma ascii_compare_trans_lt a b c :
  Ascii.compare a b = Lt -> Ascii.compare b c = Lt -> Ascii.compare a c = Lt.
Proof.
  unfold Ascii.compare. rewrite !N.compare_lt_iff. lia.
Qed.

Lemma ascii_compare_eq a b : Ascii.compare a b = Eq -> a = b.
Proof. apply Ascii.compare_eq_iff. Qed.

Lemma string_compare_trans_lt a b c :
  String.compare a b = Lt -> String.compare b c = Lt -> String.compare a c = Lt.
Proof.
  revert b c. induction a as [|x a IH]; intros [|y b] [|z c]; simpl;
    try discriminate; auto.
  destruct (Ascii.compare x y) eqn:Hxy; try discriminate;
    destruct (Ascii.compare y z) eqn:Hyz; try discriminate.
  - apply ascii_compare_eq in Hxy, Hyz. subst.
    replace (Ascii.compare z z) with Eq by (symmetry; apply N.compare_refl).
    apply IH.
  - apply ascii_compare_eq in Hxy. subst. now rewrite Hyz.
  - apply ascii_compare_eq in Hyz. subst. now rewrite Hxy.
  - now rewrite (ascii_compare_trans_lt x y z Hxy Hyz).
Qed.

Lemma string_leb_trans a b c :
  String.leb a b = true -> String.leb b c = true -> String.leb a c = true.
Proof.
  unfold String.leb. intros H1 H2.
  destruct (String.compare a b) eqn:Hab; try discriminate.
  - apply String.compare_eq_iff in Hab. now subst.
  - destruct (String.compare b c) eqn:Hbc; try discriminate.
    + apply String.compare_eq_iff in Hbc. subst. now rewrite Hab.
    + now rewrite (string_compare_trans_lt a b c Hab Hbc).
Qed.

Lemma string_leb_false a b : String.leb a b = false -> String.leb b a = true.
Proof.
  intro H. destruct (String.leb_total a b) as [H'|H']; congruence.
Qed.

Lemma insert_sorted_comm a b l :
  insert_sorted a (insert_sorted b l) = insert_sorted b (insert_sorted a l).
Proof.
  induction l as [|y l IH]; simpl.
  - destruct (String.leb b a) eqn:Hba, (String.leb a b) eqn:Hab; auto.
    + now rewrite (String.leb_antisym a b Hab Hba).
    + apply string_leb_false in Hba. congruence.
  - destruct (String.leb b y) eqn:Hby, (String.leb a y) eqn:Hay; simpl;
      rewrite ?Hby, ?Hay.
    + destruct (String.leb a b) eqn:Hab, (String.leb b a) eqn:Hba; auto.
      * now rewrite (String.leb_antisym a b Hab Hba).
      * apply string_leb_false in Hab. congruence.
    + destruct (String.leb a b) eqn:Hab; [|reflexivity].
      now rewrite (string_leb_trans a b y Hab Hby) in Hay.
    + destruct (String.leb b a) eqn:Hba; [|reflexivity].
      now rewrite (string_leb_trans b a y Hba Hay) in Hby.
    + now rewrite IH.
Qed.

(** Sorting forgets the enumeration order: [sort] gives the same list for
    every permutation of its input. *)
Lemma sort_perm_eq l1 l2 : Permutation l1 l2 -> sort l1 = sort l2.
Proof.
  induction 1 as [| x l1 l2 _ IH | x y l | l1 l2 l3 _ IH1 _ IH2]; simpl.
  - reflexivity.
  - now rewrite IH.
  - apply insert_sorted_comm.
  - congruence.
Qed.

(** ** Determinism of a run *)

Lemma perm_filter {A} (f : A -> bool) l1 l2 :
  Permutation l1 l2 -> Permutation (filter f l1) (filter f l2).
Proof.
  induction 1 as [| x l1 l2 _ IH | x y l | l1 l2 l3 _ IH1 _ IH2]; simpl.
  - constructor.
  - destruct (f x); [now apply perm_skip | exact IH].
  - destruct (f x), (f y); try constructor; reflexivity.
  - now transitivity (filter f l2).
Qed.

Lemma get_all_repos_perm dir_path e1 e2 :
  Permutation e1 e2 -> get_all_repos dir_path e1 = get_all_repos dir_path e2.
Proof.
  intro H. unfold get_all_repos.
  assert (Hd : Permutation (filter de_is_dir e1) (filter de_is_dir e2))
    by now apply perm_filter.
  rewrite (sort_perm_eq _ _ (Permutation_map (fun e => path_join dir_path (de_name e))
             (perm_filter de_has_requirements _ _ Hd))).
  rewrite (sort_perm_eq _ _ (Permutation_map (fun e => path_join dir_path (de_name e))
             (perm_filter de_has_package_json _ _ Hd))).
  reflexivity.
Qed.

(** C4: a run depends on the directory listing only through its contents:
    any two enumeration orders of the same entries (same files, same git
    state) give the same final world, in particular the same [sbom.csv] and
    [sbom.json] bytes, because both repository lists are sorted. *)
Theorem main_independent_of_enumeration_order : forall env dir_path e1 e2 w,
  Permutation e1 e2 -> main env dir_path e1 w = main env dir_path e2 w.
Proof.
  intros env dir_path e1 e2 w H. unfold main, get_all_repos_at.
  destruct (env_iterdir env dir_path); [reflexivity|].
  now rewrite (get_all_repos_perm dir_path e1 e2 H).
Qed.

Definition entry_app : DirEntry :=
  {| de_name := "app"; de_is_dir := true; de_has_package_json := true;
     de_has_requirements := false |}.

Definition entry_lib : DirEntry :=
  {| de_name := "lib"; de_is_dir := true; de_has_package_json := false;
     de_has_requirements := true |}.

Lemma main_independent_of_enumeration_order_witness :
  Permutation [entry_lib; entry_app] [entry_app; entry_lib] /\
  main env_lodash "/r" [entry_lib; entry_app] world0 =
  main env_lodash "/r" [entry_app; entry_lib] world0.
Proof.
  split; [apply perm_swap|].
  apply main_independent_of_enumeration_order. apply perm_swap.
Defined.

(** ** The repository count *)

(** The number of immediate subdirectories that hold a manifest, each
    counted once. *)
Definition qualifying_repo_count (entries : list DirEntry) : nat :=
  length (filter (fun e => de_is_dir e &&
                           (de_has_requirements e || de_has_package_json e))
                 entries).

(** The number of immediate subdirectories that hold both manifests. *)
Definition dual_repo_count (entries : list DirEntry) : nat :=
  length (filter (fun e => de_is_dir e && de_has_requirements e &&
                           de_has_package_json e) entries).

Definition entry_both : DirEntry :=
  {| de_name := "app"; de_is_dir := true; de_has_package_json := true;
     de_has_requirements := true |}.

(** C9 (counterexample): one subdirectory with both manifests is one
    repository, but the message reports two. *)
Lemma repo_count_double_counts :
  w_log (snd (get_all_repos "/r" [entry_both] world0)) =
    ["Found 2 repos in '/r'"%string] /\
  qualifying_repo_count [entry_both] = 1.
Proof. split; reflexivity. Qed.

Lemma manifest_counts entries :
  length (filter de_has_requirements (filter de_is_dir entries)) +
  length (filter de_has_package_json (filter de_is_dir entries)) =
  qualifying_repo_count entries + dual_repo_count entries.
Proof.
  unfold qualifying_repo_count, dual_repo_count.
  induction entries as [|e entries IH]; [reflexivity|].
  destruct e as [n d p r]; simpl in *.
  destruct d, p, r; simpl; lia.
Qed.

(** C9 (amended): the printed count is the number of subdirectories with a
    [requirements.txt] plus the number with a [package.json], so a directory
    holding both is counted twice: the count is the number of qualifying
    subdirectories plus the number of those holding both manifests. *)
Theorem repo_count_message : forall dir_path entries w,
  snd (get_all_repos dir_path entries w) =
  {| w_log := w_log w ++
       [("Found " ++ nat_str (qualifying_repo_count entries
                              + dual_repo_count entries)
         ++ " repos in '" ++ dir_path ++ "'")%string];
     w_files := w_files w |}.
Proof.
  intros dir_path entries w. unfold get_all_repos. cbn.
  rewrite !(Permutation_length (sort_perm _)), !length_map.
  now rewrite manifest_counts.
Qed.

(** ** Splitting a lockfile key *)

Lemma split_go_nonempty sep s skip acc : Py.split_go sep s skip acc <> [].
Proof.
  revert skip acc. induction s as [|c s IH]; intros skip acc; simpl; [discriminate|].
  destruct skip; [|apply IH].
  destruct (Py.is_prefix_l sep (c :: s)); [discriminate | apply IH].
Qed.

Lemma split_go_no_sep sep s acc :
  Py.contains_l sep s = false -> Py.split_go sep s 0 acc = [rev acc ++ s].
Proof.
  revert acc. induction s as [|c s IH]; intros acc H; simpl in *.
  - now rewrite app_nil_r.
  - apply orb_false_iff in H as [H1 H2]. simpl in H1. rewrite H1.
    rewrite IH by exact H2. simpl. now rewrite <- app_assoc.
Qed.

Lemma split_go_sep sep s acc :
  sep <> [] -> Py.contains_l sep s = true ->
  exists a b rest, Py.split_go sep s 0 acc = a :: b :: rest.
Proof.
  intro Hsep. revert acc. induction s as [|c s IH]; intros acc H; simpl in *.
  - destruct sep; [congruence | discriminate].
  - destruct (Py.is_prefix_l sep (c :: s)) eqn:Hp; simpl in *.
    + destruct (Py.split_go sep s (pred (length sep)) []) as [|b rest] eqn:E.
      * exfalso. exact (split_go_nonempty _ _ _ _ E).
      * eauto.
    + apply IH. exact H.
Qed.

Lemma split_no_node_modules key :
  Py.contains "node_modules/" key = false ->
  Py.split "node_modules/" key = [key].
Proof.
  intro H. unfold Py.split. rewrite split_go_no_sep by exact H.
  simpl. now rewrite string_of_list_ascii_of_string.
Qed.

Lemma index_split_node_modules key :
  Py.contains "node_modules/" key = true ->
  exists name, forall w, index (Py.split "node_modules/" key) 1 w = (inr name, w).
Proof.
  intro H. unfold Py.split.
  destruct (split_go_sep (list_ascii_of_string "node_modules/")
              (list_ascii_of_string key) [] ltac:(discriminate) H)
    as (a & b & rest & ->).
  exists (string_of_list_ascii b). reflexivity.
Qed.

(** An entry of the [packages] mapping that the resolver loop gets past
    without an exception: the root key, a dev entry, or a key holding
    [node_modules/]. *)
Definition passes_split (kv : string * LockEntry) : bool :=
  String.eqb (fst kv) EmptyString || is_dev (snd kv)
  || Py.contains "node_modules/" (fst kv).

Lemma lock_rows_raises_index_error env repo_path lock_path direct pre key
      info post stdout stderr w :
  String.eqb key EmptyString = false ->
  is_dev info = false ->
  Py.contains "node_modules/" key = false ->
  forallb passes_split pre = true ->
  env_git env repo_path = Completed 0 stdout stderr ->
  lock_rows env repo_path lock_path direct (pre ++ (key, info) :: post) w =
  (inl IndexError, w).
Proof.
  intros Hkey Hdev Hno Hpre Hgit.
  induction pre as [|[k i] pre IH]; simpl in *.
  - rewrite Hkey, Hdev. unfold bind, index.
    rewrite split_no_node_modules by exact Hno. reflexivity.
  - apply andb_prop in Hpre as [Hkv Hpre]. specialize (IH Hpre).
    unfold passes_split in Hkv. simpl in Hkv.
    destruct (String.eqb k EmptyString) eqn:Hk; [exact IH|].
    destruct (is_dev i) eqn:Hi; [exact IH|]. simpl in Hkv.
    destruct (index_split_node_modules k Hkv) as [name Hname].
    unfold bind at 1. rewrite Hname.
    destruct (existsb (String.eqb name) direct); [exact IH|].
    unfold bind at 1. unfold git_commit_hash. rewrite Hgit. cbn.
    unfold bind. rewrite IH. reflexivity.
Qed.

(** C10: a non-root, non-dev entry of [packages] whose key does not contain
    [node_modules/] (a workspace entry such as [packages/app]) makes
    [path.split('node_modules/')[1]] raise [IndexError]; no handler catches
    it: the resolver for the repository raises with nothing logged or
    written, and the loop over the npm repositories stops there (the
    remaining repositories are not processed).  Entries before it are the
    root, dev entries or keys holding [node_modules/], and git succeeds. *)
Theorem lock_key_without_node_modules_raises :
  forall env repo_path lf pre key info post stdout stderr w,
  env_lock env (path_join repo_path "package-lock.json") = Parsed lf ->
  lf_packages lf = Some (pre ++ (key, info) :: post) ->
  String.eqb key EmptyString = false ->
  is_dev info = false ->
  Py.contains "node_modules/" key = false ->
  forallb passes_split pre = true ->
  env_git env repo_path = Completed 0 stdout stderr ->
  lock_repo_rows env repo_path w = (inl IndexError, w) /\
  forall other_repos rest,
    get_indirect_dependencies env
      {| requirements_repos := other_repos;
         package_json_repos := repo_path :: rest |} w = (inl IndexError, w).
Proof.
  intros env repo_path lf pre key info post stdout stderr w
         Hlock Hpk Hkey Hdev Hno Hpre Hgit.
  assert (H : lock_repo_rows env repo_path w = (inl IndexError, w)).
  { unfold lock_repo_rows. rewrite Hlock, Hpk.
    eapply lock_rows_raises_index_error; eassumption. }
  split; [exact H|].
  intros other_repos rest. unfold get_indirect_dependencies. simpl.
  unfold bind at 1. rewrite H. reflexivity.
Qed.

Definition workspace_pre : list (string * LockEntry) := [
  (EmptyString, {| le_dev := None; le_version := None;
                   le_dependencies := Some [("lodash", "^4.17.21")] |});
  ("node_modules/lodash", {| le_dev := None; le_version := Some "4.17.21";
                             le_dependencies := None |})
]%string.

Definition workspace_entry : LockEntry :=
  {| le_dev := None; le_version := Some "1.0.0"%string; le_dependencies := None |}.

Definition workspace_lock : LockFile :=
  {| lf_packages := Some (workspace_pre ++ [("packages/app"%string, workspace_entry)]) |}.

Definition env_workspace : Env := {|
  env_git := fun _ => git_ok;
  env_requirements := fun _ => Missing;
  env_package_json := fun _ => Missing;
  env_lock := fun p => if String.eqb p "/r/app/package-lock.json"
                       then Parsed workspace_lock else Missing;
  env_iterdir := fun _ => None;
  env_write := fun _ => WriteOk
|}%string.

Lemma lock_key_without_node_modules_raises_witness :
  lock_repo_rows env_workspace ("/r/app")%string world0 = (inl IndexError, world0) /\
  (forall other_repos rest,
    get_indirect_dependencies env_workspace
      {| requirements_repos := other_repos;
         package_json_repos := ("/r/app")%string :: rest |} world0 =
    (inl IndexError, world0)).
Proof.
  apply (lock_key_without_node_modules_raises env_workspace ("/r/app")%string
           workspace_lock workspace_pre "packages/app"%string workspace_entry
           [] (HASH ++ NL)%string EmptyString world0);
    vm_compute; reflexivity.
Defined.

(** ** A relational reading of the matcher

    [rel r pos s cs pos' s' cs'] holds when [r] can consume a prefix of [s]
    starting at offset [pos], leaving [s'] at offset [pos'] with captures
    [cs']; every continuation call made by [rmatch] is on such a state. *)

Module ReFacts.
Import Re.

Inductive rel : regex -> nat -> list ascii -> caps ->
                nat -> list ascii -> caps -> Prop :=
| rel_class p c s pos cs :
    p c = true -> rel (RClass p) pos (c :: s) cs (S pos) s cs
| rel_seq r1 r2 pos s cs pos1 s1 cs1 pos2 s2 cs2 :
    rel r1 pos s cs pos1 s1 cs1 -> rel r2 pos1 s1 cs1 pos2 s2 cs2 ->
    rel (RSeq r1 r2) pos s cs pos2 s2 cs2
| rel_star_done r pos s cs : rel (RStar r) pos s cs pos s cs
| rel_star_more r pos s cs pos1 s1 cs1 pos2 s2 cs2 :
    rel r pos s cs pos1 s1 cs1 -> rel (RStar r) pos1 s1 cs1 pos2 s2 cs2 ->
    rel (RStar r) pos s cs pos2 s2 cs2
| rel_opt_skip r pos s cs : rel (ROpt r) pos s cs pos s cs
| rel_opt_take r pos s cs pos' s' cs' :
    rel r pos s cs pos' s' cs' -> rel (ROpt r) pos s cs pos' s' cs'
| rel_group n r pos s cs pos' s' cs' :
    rel r pos s cs pos' s' cs' ->
    rel (RGroup n r) pos s cs pos' s' ((n, (pos, pos')) :: cs').

Lemma rmatch_rel : forall r fuel pos s cs k res,
  rmatch fuel r pos s cs k = Some res ->
  exists pos' s' cs', rel r pos s cs pos' s' cs' /\ k pos' s' cs' = Some res.
Proof.
  induction r as [p | r1 IH1 r2 IH2 | r1 IH | r1 IH | n r1 IH];
    intros fuel pos s cs k res H; simpl in H.
  - destruct s as [|c s]; [discriminate|].
    destruct (p c) eqn:Hp; [|discriminate].
    exists (S pos), s, cs. split; [now constructor | exact H].
  - destruct (IH1 _ _ _ _ _ _ H) as (pos1 & s1 & cs1 & Hr1 & Hk1).
    destruct (IH2 _ _ _ _ _ _ Hk1) as (pos2 & s2 & cs2 & Hr2 & Hk2).
    exists pos2, s2, cs2. split; [econstructor; eassumption | exact Hk2].
  - match type of H with ?F fuel pos s cs = Some res =>
      assert (Hloop : forall f pos s cs, F f pos s cs = Some res ->
                exists pos' s' cs', rel (RStar r1) pos s cs pos' s' cs' /\
                                    k pos' s' cs' = Some res)
    end.
    { induction f as [|f IHf]; intros pos0 s0 cs0 H0; simpl in H0.
      - exists pos0, s0, cs0. split; [constructor | exact H0].
      - destruct (rmatch fuel r1 pos0 s0 cs0 _) as [res'|] eqn:E.
        + injection H0 as <-.
          destruct (IH _ _ _ _ _ _ E) as (pos1 & s1 & cs1 & Hr1 & Hk1).
          destruct (pos0 <? pos1); [|discriminate].
          destruct (IHf _ _ _ Hk1) as (pos2 & s2 & cs2 & Hr2 & Hk2).
          exists pos2, s2, cs2. split; [econstructor; eassumption | exact Hk2].
        + exists pos0, s0, cs0. split; [constructor | exact H0]. }
    exact (Hloop _ _ _ _ H).
  - destruct (rmatch fuel r1 pos s cs k) as [res'|] eqn:E.
    + injection H as <-.
      destruct (IH _ _ _ _ _ _ E) as (pos1 & s1 & cs1 & Hr1 & Hk1).
      exists pos1, s1, cs1. split; [now constructor | exact Hk1].
    + exists pos, s, cs. split; [constructor | exact H].
  - destruct (IH _ _ _ _ _ _ H) as (pos1 & s1 & cs1 & Hr1 & Hk1).
    eexists _, _, _. split; [econstructor; eassumption | exact Hk1].
Qed.

Lemma rel_pos_le r pos s cs pos' s' cs' :
  rel r pos s cs pos' s' cs' -> pos <= pos'.
Proof. induction 1; lia. Qed.

(** The group numbers a pattern binds. *)
Fixpoint groups (r : regex) : list nat :=
  match r with
  | RClass _ => []
  | RSeq r1 r2 => groups r1 ++ groups r2
  | RStar r1 | ROpt r1 => groups r1
  | RGroup n r1 => n :: groups r1
  end.

Lemma rel_caps_get r pos s cs pos' s' cs' n :
  rel r pos s cs pos' s' cs' -> ~ In n (groups r) ->
  caps_get n cs' = caps_get n cs.
Proof.
  induction 1; simpl; intro Hn; auto.
  - rewrite in_app_iff in Hn. rewrite IHrel2, IHrel1; tauto.
  - rewrite IHrel2, IHrel1; auto.
  - destruct (Nat.eqb_spec n n0); [subst; tauto|]. apply IHrel. tauto.
Qed.

(** A successful match of [DEPENDENCY_PATTERN] binds group 1 to a
    non-empty prefix of the subject. *)
Lemma dependency_group1 s m :
  re_match DEPENDENCY_PATTERN s = Some m ->
  exists p1, 1 <= p1 /\ caps_get 1 m = Some (0, p1).
Proof.
  unfold re_match. intro H.
  destruct (rmatch_rel _ _ _ _ _ _ _ H) as (pos' & s' & cs' & Hr & Hk).
  injection Hk as ->.
  inversion Hr as [| ? ? ? ? ? ? ? ? ? ? ? Hg Hrest | | | | | ]; subst.
  inversion Hg as [| | | | | | ? ? ? ? ? ? ? ? Hplus]; subst.
  inversion Hplus as [| ? ? ? ? ? ? ? ? ? ? ? Hc Hs | | | | | ]; subst.
  inversion Hc; subst.
  exists pos1. split.
  - apply rel_pos_le in Hs. lia.
  - rewrite (rel_caps_get _ _ _ _ _ _ _ 1 Hrest) by (simpl; intuition lia).
    reflexivity.
Qed.

End ReFacts.

(** ** [str.strip] *)

Lemma lstrip_suffix l : exists p, l = p ++ Py.lstrip_l l.
Proof.
  induction l as [|c l [p Hp]]; simpl; [now exists []|].
  destruct (Py.isspace c); [exists (c :: p); simpl; congruence | now exists []].
Qed.

Lemma lstrip_head l c t : Py.lstrip_l l = c :: t -> Py.isspace c = false.
Proof.
  induction l as [|d l IH]; simpl; [discriminate|].
  destruct (Py.isspace d) eqn:Hd; [exact IH|]. now intros [= -> _].
Qed.

Lemma lstrip_nil l : Py.lstrip_l l = [] -> forallb Py.isspace l = true.
Proof.
  induction l as [|d l IH]; simpl; [reflexivity|].
  destruct (Py.isspace d); [exact IH | discriminate].
Qed.

(** The first character of a stripped text is not white space. *)
Lemma strip_head l c t : Py.strip_l l = c :: t -> Py.isspace c = false.
Proof.
  unfold Py.strip_l. intro H.
  pose proof (f_equal (@rev ascii) H) as H'. rewrite rev_involutive in H'.
  simpl in H'.
  destruct (lstrip_suffix (rev (Py.lstrip_l l))) as [p Hp].
  rewrite H' in Hp. apply (f_equal (@rev ascii)) in Hp.
  rewrite rev_involutive, !rev_app_distr in Hp. simpl in Hp.
  exact (lstrip_head _ _ _ Hp).
Qed.

(** A text that starts with a non-space character does not strip to empty. *)
Lemma strip_nonempty c l : Py.isspace c = false -> Py.strip_l (c :: l) <> [].
Proof.
  intros Hc. unfold Py.strip_l. simpl. rewrite Hc.
  intro H. apply (f_equal (@rev ascii)) in H. rewrite rev_involutive in H.
  simpl in H. apply lstrip_nil in H.
  rewrite forallb_app in H. simpl in H. rewrite Hc in H.
  rewrite andb_false_r in H. discriminate.
Qed.

Lemma dependency_name_nonempty L m :
  String.eqb (string_of_list_ascii (Py.strip_l L)) EmptyString = false ->
  Re.re_match Re.DEPENDENCY_PATTERN (string_of_list_ascii (Py.strip_l L)) = Some m ->
  match Re.group (string_of_list_ascii (Py.strip_l L)) m 1 with
  | Some g => Py.strip g
  | None => EmptyString
  end <> EmptyString.
Proof.
  intros Hdl Hm.
  destruct (ReFacts.dependency_group1 _ _ Hm) as (p1 & Hp1 & Hg).
  unfold Re.group. rewrite Hg.
  destruct (Py.strip_l L) as [|c t] eqn:HL; [discriminate Hdl|].
  apply strip_head in HL.
  destruct p1 as [|q]; [lia|]. simpl.
  unfold Py.strip. simpl.
  destruct (Py.strip_l (c :: _)) eqn:E; [|discriminate].
  exfalso. exact (strip_nonempty _ _ HL E).
Qed.

(** Every record of the pip parser has a non-empty name. *)
Lemma parse_requirement_line_name line name v :
  parse_requirement_line line = Some (name, v) -> name <> EmptyString.
Proof.
  unfold parse_requirement_line. intro H.
  destruct (_ || _); [discriminate|].
  destruct (String.eqb (Py.strip (Py.before_char "#" (Py.strip line)))
              EmptyString) eqn:Hdl; [discriminate|].
  destruct (Re.re_match Re.DEPENDENCY_PATTERN
              (Py.strip (Py.before_char "#" (Py.strip line)))) as [m|] eqn:Hm;
    [|discriminate].
  injection H as <- _.
  exact (dependency_name_nonempty _ m Hdl Hm).
Qed.

(** ** The shape of every emitted record *)

(** A data row: five cells, all strings but the version; the ecosystem tag
    is [pip] or [npm], and a [pip] record has a non-empty name. *)
Definition good_row (r : row) : Prop :=
  exists name version ty path commit_hash,
    r = [PStr name; version; PStr ty; PStr path; PStr commit_hash] /\
    ((ty = "pip"%string /\ name <> EmptyString) \/ ty = "npm"%string).

Ltac split_bind H :=
  let a := fresh "a" in let w := fresh "w" in
  let Hm := fresh "Hm" in
  apply bind_inr in H as (a & w & Hm & H).

Lemma requirements_rows_good env repo_path requirements_path lines :
  forall w rows w',
  requirements_rows env repo_path requirements_path lines w = (inr rows, w') ->
  Forall good_row rows.
Proof.
  induction lines as [|line lines IH]; intros w rows w' H; simpl in H.
  - injection H as <- _. constructor.
  - destruct (parse_requirement_line line) as [[name v]|] eqn:Hp;
      [|eapply IH; eassumption].
    split_bind H. split_bind H. cbv [ret] in H. injection H as <- _.
    constructor; [|eapply IH; eassumption].
    exists name, v, "pip"%string, requirements_path, a. split; [reflexivity|].
    left. split; [reflexivity | eapply parse_requirement_line_name; eassumption].
Qed.

Lemma package_json_rows_good env repo_path package_json_path deps :
  forall w rows w',
  package_json_rows env repo_path package_json_path deps w = (inr rows, w') ->
  Forall good_row rows.
Proof.
  induction deps as [|[name version] deps IH]; intros w rows w' H; simpl in H.
  - injection H as <- _. constructor.
  - split_bind H. split_bind H. cbv [ret] in H. injection H as <- _.
    constructor; [|eapply IH; eassumption].
    exists name, (PStr version), "npm"%string, package_json_path, a.
    split; [reflexivity | now right].
Qed.

Lemma lock_rows_good env repo_path lock_path direct packages :
  forall w rows w',
  lock_rows env repo_path lock_path direct packages w = (inr rows, w') ->
  Forall good_row rows.
Proof.
  induction packages as [|[path info] packages IH]; intros w rows w' H;
    simpl in H.
  - injection H as <- _. constructor.
  - destruct (String.eqb path EmptyString); [eapply IH; eassumption|].
    destruct (is_dev info); [eapply IH; eassumption|].
    split_bind H.
    destruct (existsb (String.eqb a) direct); [eapply IH; eassumption|].
    split_bind H. split_bind H. cbv [ret] in H. injection H as <- _.
    constructor; [|eapply IH; eassumption].
    eexists a, _, "npm"%string, lock_path, a0.
    split; [reflexivity | now right].
Qed.

Lemma concat_rows_good (f : string -> M (list row)) repos :
  (forall r w rows w', f r w = (inr rows, w') -> Forall good_row rows) ->
  forall w rows w', concat_rows f repos w = (inr rows, w') ->
  Forall good_row rows.
Proof.
  intro Hf. induction repos as [|r repos IH]; intros w rows w' H; simpl in H.
  - injection H as <- _. constructor.
  - split_bind H. split_bind H. cbv [ret] in H. injection H as <- _.
    apply Forall_app. split; [eapply Hf | eapply IH]; eassumption.
Qed.

Lemma create_sbom_data_good env repos w data w' :
  create_sbom_data env repos w = (inr data, w') ->
  exists rows, data = HEADER :: rows /\ Forall good_row rows.
Proof.
  unfold create_sbom_data, get_indirect_dependencies. intro H.
  split_bind H. split_bind H. split_bind H. cbv [ret] in H. injection H as <- _.
  eexists. split; [reflexivity|].
  apply Forall_app. split.
  { eapply concat_rows_good; [|eassumption].
    intros r wa rows wb. unfold pip_repo_rows.
    destruct (env_requirements env _); try discriminate.
    apply requirements_rows_good. }
  apply Forall_app. split.
  { eapply concat_rows_good; [|eassumption].
    intros r wa rows wb. unfold npm_repo_rows.
    destruct (env_package_json env _); try discriminate.
    apply package_json_rows_good. }
  { eapply concat_rows_good; [|eassumption].
    intros r wa rows wb. unfold lock_repo_rows.
    destruct (env_lock env _); try discriminate.
    - intro H. split_bind H. cbv [ret] in H. injection H as <- _. constructor.
    - apply lock_rows_good. }
Qed.

Definition env_empty_names : Env := {|
  env_git := fun _ => git_ok;
  env_requirements := fun _ => Missing;
  env_package_json := fun p =>
    if String.eqb p "/r/app/package.json"
    then Parsed {| pj_dependencies := Some [(EmptyString, "1.0.0")] |}
    else Missing;
  env_lock := fun p =>
    if String.eqb p "/r/app/package-lock.json"
    then Parsed {| lf_packages := Some [
           (EmptyString, {| le_dev := None; le_version := None;
                            le_dependencies := Some [("left-pad", "1.3.0")] |});
           ("node_modules/", {| le_dev := None; le_version := Some "2.0.0";
                                le_dependencies := None |})] |}
    else Missing;
  env_iterdir := fun _ => None;
  env_write := fun _ => WriteOk
|}%string.

Definition repos_app : Repos :=
  {| requirements_repos := []; package_json_repos := ["/r/app"%string] |}.

(** C3 (counterexample): npm names are taken verbatim.  A [package.json]
    dependency keyed by the empty string, and a lockfile entry keyed
    [node_modules/], both give records whose name is the empty string. *)
Lemma npm_records_with_empty_name :
  create_sbom_data env_empty_names repos_app world0 =
  (inr [HEADER;
        [PStr EmptyString; PStr "1.0.0"; PStr "npm";
         PStr "/r/app/package.json"; PStr HASH];
        [PStr EmptyString; PStr "2.0.0"; PStr "npm";
         PStr "/r/app/package-lock.json"; PStr HASH]]%string, world0).
Proof. vm_compute. reflexivity. Qed.

(** C3 (amended): after the header, every record the data stage assembles
    has five cells, an ecosystem tag that is [pip] or [npm], and, for a
    [pip] record, a non-empty name; npm names are the keys read from
    [package.json] or the lockfile path segments, unchecked. *)
Theorem sbom_rows_tag_and_pip_name : forall env repos w data w',
  create_sbom_data env repos w = (inr data, w') ->
  exists rows, data = HEADER :: rows /\ Forall good_row rows.
Proof. exact create_sbom_data_good. Qed.

Lemma sbom_rows_tag_and_pip_name_witness :
  exists rows, [HEADER;
        [PStr EmptyString; PStr "1.0.0"; PStr "npm";
         PStr "/r/app/package.json"; PStr HASH];
        [PStr EmptyString; PStr "2.0.0"; PStr "npm";
         PStr "/r/app/package-lock.json"; PStr HASH]]%string = HEADER :: rows /\
    Forall good_row rows.
Proof.
  apply (sbom_rows_tag_and_pip_name env_empty_names repos_app world0 _ world0).
  vm_compute. reflexivity.
Defined.

(** ** Reading back [sbom.csv] *)

Module CsvFacts.
Import Csv.

Lemma quoted_body_parse f fld rec out rest :
  parse_go InQuoted fld rec out (double_quotes f ++ rest) =
  parse_go InQuoted (rev f ++ fld) rec out rest.
Proof.
  revert fld. induction f as [|c f IH]; intro fld; simpl; [reflexivity|].
  destruct (Ascii.eqb c DQ) eqn:Hc.
  - apply Ascii.eqb_eq in Hc. subst. simpl.
    rewrite IH. now rewrite <- app_assoc.
  - simpl. rewrite Hc, IH. now rewrite <- app_assoc.
Qed.

Lemma plain_body_parse f fld rec out rest :
  existsb is_special f = false ->
  parse_go InField fld rec out (f ++ rest) =
  parse_go InField (rev f ++ fld) rec out rest.
Proof.
  revert fld. induction f as [|c f IH]; intros fld Hf; simpl in *; [reflexivity|].
  apply orb_false_iff in Hf as [Hc Hf]. unfold is_special in Hc.
  apply orb_false_iff in Hc as [Hc Hcr]. apply orb_false_iff in Hc as [Hc Hlf].
  apply orb_false_iff in Hc as [Hcomma Hdq].
  unfold is_nl. rewrite Hcomma, Hlf, Hcr. simpl.
  rewrite IH by exact Hf. now rewrite <- app_assoc.
Qed.

(** What the reader does on the character that ends a field. *)
Definition end_field (t : ascii) (fld : list ascii) (rec : list string)
           (out : list (list string)) (rest : list ascii) :=
  if Ascii.eqb t COMMA then parse_go StartField [] (save fld rec) out rest
  else parse_go StartRecord [] [] (rev (save fld rec) :: out) rest.

Lemma field_parse f t rec out rest :
  t = COMMA \/ t = LF ->
  parse_go StartField [] rec out (quote_field f ++ t :: rest) =
  end_field t (rev f) rec out rest.
Proof.
  intro Ht. unfold quote_field.
  destruct (existsb is_special f) eqn:Hs.
  - simpl. rewrite <- app_assoc, quoted_body_parse, app_nil_r.
    destruct Ht as [-> | ->]; reflexivity.
  - destruct f as [|c f].
    + destruct Ht as [-> | ->]; reflexivity.
    + simpl in Hs. apply orb_false_iff in Hs as [Hc Hf].
      unfold is_special in Hc.
      apply orb_false_iff in Hc as [Hc Hcr]. apply orb_false_iff in Hc as [Hc Hlf].
      apply orb_false_iff in Hc as [Hcomma Hdq].
      simpl. unfold is_nl. rewrite Hdq, Hcomma, Hlf, Hcr. simpl.
      rewrite plain_body_parse by exact Hf.
      destruct Ht as [-> | ->]; reflexivity.
Qed.

Lemma join_parse fs rec out rest :
  fs <> [] ->
  parse_go StartField [] rec out (join_fields (map quote_field fs) ++ LF :: rest) =
  parse_go StartRecord [] []
    (rev (rev (map string_of_list_ascii fs) ++ rec) :: out) rest.
Proof.
  revert rec. induction fs as [|f fs IH]; intros rec Hfs; [congruence|].
  destruct fs as [|f2 fs].
  - simpl. rewrite field_parse by now right. unfold end_field, save.
    simpl. now rewrite rev_involutive.
  - change (join_fields (map quote_field (f :: f2 :: fs)))
      with (quote_field f ++ COMMA :: join_fields (map quote_field (f2 :: fs))).
    rewrite <- app_assoc. simpl app at 2.
    rewrite field_parse by now left. unfold end_field, save. simpl.
    rewrite rev_involutive, IH by discriminate.
    simpl. now rewrite <- !app_assoc.
Qed.

Lemma start_record_field c l out :
  is_nl c = false ->
  parse_go StartRecord [] [] out (c :: l) = parse_go StartField [] [] out (c :: l).
Proof. intro Hc. simpl. now rewrite Hc. Qed.

Lemma join_first_char fs rest :
  fs <> [] -> fs <> [[]] ->
  exists c l, join_fields (map quote_field fs) ++ LF :: rest = c :: l /\
              is_nl c = false.
Proof.
  intros Hne Hnn. destruct fs as [|f fs]; [congruence|].
  unfold quote_field at 1. simpl map.
  destruct (existsb is_special f) eqn:Hs.
  - destruct fs; simpl; eauto.
  - destruct f as [|c f].
    + destruct fs as [|f2 fs]; [congruence|]. simpl. eauto.
    + simpl in Hs. apply orb_false_iff in Hs as [Hc _].
      unfold is_special in Hc. unfold is_nl.
      apply orb_false_iff in Hc as [Hc Hcr]. apply orb_false_iff in Hc as [Hc Hlf].
      destruct fs; simpl; do 2 eexists; (split; [reflexivity|]);
        now rewrite Hlf, Hcr.
Qed.

Definition csv_cell (v : pyval) : string :=
  match v with PStr s => s | PNone => EmptyString end.

Lemma field_text_cell v : string_of_list_ascii (field_text v) = csv_cell v.
Proof. destruct v; simpl; [apply string_of_list_ascii_of_string | reflexivity]. Qed.

Lemma write_row_parse r out rest :
  r <> [] ->
  parse_go StartRecord [] [] out (write_row r ++ rest) =
  parse_go StartRecord [] [] (map csv_cell r :: out) rest.
Proof.
  intro Hr. unfold write_row.
  assert (Hcells : map csv_cell r = map string_of_list_ascii (map field_text r)).
  { rewrite map_map. apply map_ext. intro v. symmetry. apply field_text_cell. }
  rewrite Hcells.
  destruct (map field_text r) as [|f fs] eqn:Hfs.
  { destruct r; [congruence | discriminate]. }
  destruct (list_eq_dec (list_eq_dec Ascii.ascii_dec) (f :: fs) [[]]) as [E|E].
  - injection E as -> ->. reflexivity.
  - assert (Hj : parse_go StartRecord [] [] out
                   ((join_fields (map quote_field (f :: fs)) ++ [LF]) ++ rest) =
                 parse_go StartRecord [] []
                   (map string_of_list_ascii (f :: fs) :: out) rest).
    { rewrite <- app_assoc. simpl app at 2.
      destruct (join_first_char (f :: fs) rest ltac:(discriminate) E)
        as (c & l & Hcl & Hc).
      rewrite Hcl, start_record_field by exact Hc. rewrite <- Hcl.
      rewrite join_parse by discriminate.
      now rewrite app_nil_r, rev_involutive. }
    destruct f as [|a f]; [destruct fs; [congruence | exact Hj] | exact Hj].
Qed.

Lemma write_rows_parse rows out :
  Forall (fun r => r <> []) rows ->
  parse_go StartRecord [] [] out (concat (map write_row rows)) =
  rev out ++ map (map csv_cell) rows.
Proof.
  revert out. induction rows as [|r rows IH]; intros out Hne; simpl.
  - now rewrite app_nil_r.
  - inversion Hne as [|? ? Hr Hrows]; subst.
    rewrite write_row_parse by exact Hr. rewrite IH by exact Hrows.
    simpl. now rewrite <- app_assoc.
Qed.

(** The CSV reader inverts the CSV writer on rows that are not empty. *)
Lemma read_write_rows rows :
  Forall (fun r => r <> []) rows ->
  read_rows (write_rows rows) = map (map csv_cell) rows.
Proof.
  intro Hne. unfold read_rows, write_rows.
  rewrite list_ascii_of_string_of_list_ascii. now apply write_rows_parse.
Qed.

End CsvFacts.

(** ** Reading back [sbom.json]: [json.load] *)

(** The scanner of [json.decoder] on the values [json.dump] writes here:
    [null], strings with their escapes (strict: no raw control character),
    arrays and objects, with whitespace between tokens.  The recursion of the
    scanner is bounded by a fuel argument; [loads] gives it the length of
    the text, and each nested call consumes at least one character. *)
Module JsonRead.
Import Json.

Definition BS : ascii := "\"%char.

Definition is_ws (c : ascii) : bool :=
  Ascii.eqb c " "%char || Ascii.eqb c "009"%char ||
  Ascii.eqb c Csv.LF || Ascii.eqb c Csv.CR.

Fixpoint skip_ws (l : list ascii) : list ascii :=
  match l with
  | c :: l' => if is_ws c then skip_ws l' else l
  | [] => []
  end.

Definition hex_val (c : ascii) : option nat :=
  let n := nat_of_ascii c in
  if (48 <=? n) && (n <=? 57) then Some (n - 48)
  else if (97 <=? n) && (n <=? 102) then Some (n - 87)
  else if (65 <=? n) && (n <=? 70) then Some (n - 55)
  else None.

(** [scanstring], after the opening quote; characters are code points
    below 256, so a [\uXXXX] escape above [\u00ff] is outside the model. *)
Fixpoint read_string (l : list ascii) (acc : list ascii)
  : option (string * list ascii) :=
  match l with
  | [] => None
  | c :: l' =>
      if Ascii.eqb c Csv.DQ then Some (string_of_list_ascii (rev acc), l')
      else if Ascii.eqb c BS then
        match l' with
        | [] => None
        | e :: l'' =>
            if Ascii.eqb e Csv.DQ then read_string l'' (Csv.DQ :: acc)
            else if Ascii.eqb e BS then read_string l'' (BS :: acc)
            else if Ascii.eqb e "/"%char then read_string l'' ("/"%char :: acc)
            else if Ascii.eqb e "b"%char then read_string l'' ("008"%char :: acc)
            else if Ascii.eqb e "f"%char then read_string l'' ("012"%char :: acc)
            else if Ascii.eqb e "n"%char then read_string l'' ("010"%char :: acc)
            else if Ascii.eqb e "r"%char then read_string l'' ("013"%char :: acc)
            else if Ascii.eqb e "t"%char then read_string l'' ("009"%char :: acc)
            else if Ascii.eqb e "u"%char then
              match l'' with
              | h1 :: h2 :: h3 :: h4 :: l3 =>
                  match hex_val h1, hex_val h2, hex_val h3, hex_val h4 with
                  | Some d1, Some d2, Some d3, Some d4 =>
                      let n := ((d1 * 16 + d2) * 16 + d3) * 16 + d4 in
                      if n <? 256 then read_string l3 (ascii_of_nat n :: acc)
                      else None
                  | _, _, _, _ => None
                  end
              | _ => None
              end
            else None
        end
      else if nat_of_ascii c <? 32 then None
      else read_string l' (c :: acc)
  end.

(** The items of an array, after its first non-blank character. *)
Fixpoint elems (fuel : nat) (val : list ascii -> option (json * list ascii))
         (acc : list json) (l : list ascii) : option (list json * list ascii) :=
  match fuel with
  | O => None
  | S f =>
      match val l with
      | None => None
      | Some (v, r) =>
          match skip_ws r with
          | c :: r' =>
              if Ascii.eqb c ","%char then elems f val (v :: acc) r'
              else if Ascii.eqb c "]"%char then Some (rev (v :: acc), r')
              else None
          | [] => None
          end
      end
  end.

(** The members of an object, after its first non-blank character. *)
Fixpoint members (fuel : nat) (val : list ascii -> option (json * list ascii))
         (acc : list (string * json)) (l : list ascii)
  : option (list (string * json) * list ascii) :=
  match fuel with
  | O => None
  | S f =>
      match skip_ws l with
      | c :: r =>
          if Ascii.eqb c Csv.DQ then
            match read_string r [] with
            | None => None
            | Some (k, r1) =>
                match skip_ws r1 with
                | c1 :: r2 =>
                    if Ascii.eqb c1 ":"%char then
                      match val r2 with
                      | None => None
                      | Some (v, r3) =>
                          match skip_ws r3 with
                          | c3 :: r4 =>
                              if Ascii.eqb c3 ","%char
                              then members f val ((k, v) :: acc) r4
                              else if Ascii.eqb c3 "}"%char
                              then Some (rev ((k, v) :: acc), r4)
                              else None
                          | [] => None
                          end
                      end
                    else None
                | [] => None
                end
            end
          else None
      | [] => None
      end
  end.

Fixpoint value (fuel : nat) (l : list ascii) : option (json * list ascii) :=
  match fuel with
  | O => None
  | S f =>
      match skip_ws l with
      | c :: r =>
          if Ascii.eqb c "n"%char then
            match r with
            | u :: l1 :: l2 :: r' =>
                if Ascii.eqb u "u"%char && Ascii.eqb l1 "l"%char
                   && Ascii.eqb l2 "l"%char
                then Some (JNull, r') else None
            | _ => None
            end
          else if Ascii.eqb c Csv.DQ then
            match read_string r [] with
            | Some (s, r') => Some (JStr s, r')
            | None => None
            end
          else if Ascii.eqb c "["%char then
            match skip_ws r with
            | c' :: r' =>
                if Ascii.eqb c' "]"%char then Some (JArr [], r')
                else match elems f (value f) [] (c' :: r') with
                     | Some (items, r'') => Some (JArr items, r'')
                     | None => None
                     end
            | [] => None
            end
          else if Ascii.eqb c "{"%char then
            match skip_ws r with
            | c' :: r' =>
                if Ascii.eqb c' "}"%char then Some (JObj [], r')
                else match members f (value f) [] (c' :: r') with
                     | Some (items, r'') => Some (JObj items, r'')
                     | None => None
                     end
            | [] => None
            end
          else None
      | [] => None
      end
  end.

(** [json.loads]: one value, then nothing but whitespace. *)
Definition loads (text : string) : option json :=
  let l := list_ascii_of_string text in
  match value (length l) l with
  | Some (v, r) => match skip_ws r with [] => Some v | _ => None end
  | None => None
  end.

(** [d[k]] on the dict the decoder builds from the members: the last
    member with key [k] wins. *)
Definition dict_get (k : string) (items : list (string * json)) : option json :=
  match find (fun kv => String.eqb (fst kv) k) (rev items) with
  | Some (_, v) => Some v
  | None => None
  end.

End JsonRead.

(** The records read back from each file, as lists of the five cells
    (taken by header key for JSON, by position for CSV): [None] for a key
    that is missing, and a CSV cell is always a string. *)
Definition HEADER_KEYS : list string :=
  ["name"; "version"; "type"; "path"; "commit_hash"]%string.

Definition json_records (text : string) : option (list (list (option Json.json))) :=
  match JsonRead.loads text with
  | Some (Json.JArr objs) =>
      Some (map (fun o => match o with
                          | Json.JObj items =>
                              map (fun k => JsonRead.dict_get k items) HEADER_KEYS
                          | _ => map (fun _ => None) HEADER_KEYS
                          end) objs)
  | _ => None
  end.

Definition csv_records (text : string) : list (list (option Json.json)) :=
  map (map (fun s => Some (Json.JStr s))) (tl (Csv.read_rows text)).

(** [json.loads] inverts [json.dumps] on an array of objects whose
    members are strings or [null]. *)
Module JsonFacts.
Import Json JsonRead.

Lemma read_escape c rest acc :
  read_string (escape_char c ++ rest) acc = read_string rest (c :: acc).
Proof.
  destruct c as [[] [] [] [] [] [] [] []]; reflexivity.
Qed.

Lemma read_escaped l rest acc :
  read_string (concat (map escape_char l) ++ Csv.DQ :: rest) acc =
  Some (string_of_list_ascii (rev acc ++ l), rest).
Proof.
  revert acc. induction l as [|c l IH]; intro acc; simpl.
  - now rewrite app_nil_r.
  - rewrite <- app_assoc, read_escape, IH. simpl. now rewrite <- app_assoc.
Qed.

Lemma encode_string_app s l :
  encode_string s ++ l =
  Csv.DQ :: concat (map escape_char (list_ascii_of_string s)) ++ Csv.DQ :: l.
Proof. unfold encode_string. simpl. now rewrite <- app_assoc. Qed.

Lemma read_encoded s l :
  read_string (concat (map escape_char (list_ascii_of_string s)) ++ Csv.DQ :: l) [] =
  Some (s, l).
Proof. rewrite read_escaped. simpl. now rewrite string_of_list_ascii_of_string. Qed.

Lemma skip_ws_blank n l : skip_ws (repeat " "%char n ++ l) = skip_ws l.
Proof. induction n; simpl; auto. Qed.

Lemma skip_ws_indent n l : skip_ws (newline_indent n ++ l) = skip_ws l.
Proof. unfold newline_indent. simpl. apply skip_ws_blank. Qed.

Lemma value_ws F c l : is_ws c = true -> value F (c :: l) = value F l.
Proof. intro Hc. destruct F; simpl; [reflexivity|]. now rewrite Hc. Qed.

Lemma value_blank F n l : value F (repeat " "%char n ++ l) = value F l.
Proof. induction n; simpl; auto. rewrite value_ws; auto. Qed.

Lemma value_indent F n l : value F (newline_indent n ++ l) = value F l.
Proof. unfold newline_indent. simpl. rewrite value_ws by reflexivity. apply value_blank. Qed.

Definition flat (v : json) : Prop :=
  match v with JNull | JStr _ => True | _ => False end.

Lemma value_flat F lvl v r :
  flat v -> value (S F) (encode lvl v ++ r) = Some (v, r).
Proof.
  intro Hv. destruct v as [|s| |]; try contradiction.
  - reflexivity.
  - simpl encode. rewrite encode_string_app. simpl.
    now rewrite read_encoded.
Qed.

#[local] Arguments value : simpl never.
#[local] Arguments newline_indent : simpl never.

Definition kv_enc (lvl : nat) (kv : string * json) : list ascii :=
  encode_string (fst kv) ++ [":"%char; " "%char] ++ encode (S lvl) (snd kv).

Lemma members_indent F val acc n l :
  members F val acc (newline_indent n ++ l) = members F val acc l.
Proof. destruct F; simpl; [reflexivity|]. now rewrite skip_ws_blank. Qed.

Lemma skip_ws_close n c r :
  is_ws c = false -> skip_ws (newline_indent n ++ c :: r) = c :: r.
Proof. intro Hc. rewrite skip_ws_indent. simpl. now rewrite Hc. Qed.

Lemma members_step F G lvl acc k v t :
  flat v ->
  members (S F) (value (S G)) acc (kv_enc lvl (k, v) ++ t) =
  match skip_ws t with
  | c3 :: r4 =>
      if Ascii.eqb c3 ","%char then members F (value (S G)) ((k, v) :: acc) r4
      else if Ascii.eqb c3 "}"%char then Some (rev ((k, v) :: acc), r4)
      else None
  | [] => None
  end.
Proof.
  intro Hv. unfold kv_enc. simpl fst. simpl snd.
  rewrite <- app_assoc, encode_string_app.
  simpl members. rewrite read_encoded. cbn -[value encode].
  rewrite value_ws, value_flat by (reflexivity || exact Hv).
  reflexivity.
Qed.

Lemma members_parse lvl G items F acc r :
  items <> [] -> Forall (fun kv => flat (snd kv)) items -> length items <= F ->
  members F (value (S G)) acc
    (sep_by ("," %char :: newline_indent (S lvl)) (map (kv_enc lvl) items)
       ++ newline_indent lvl ++ "}"%char :: r) =
  Some (rev acc ++ items, r).
Proof.
  revert F acc. induction items as [|[k v] items IH]; intros F acc Hne Hflat Hlen;
    [congruence|].
  inversion Hflat as [|? ? Hv Hrest]; subst. simpl in Hv.
  destruct F as [|F]; [simpl in Hlen; lia|].
  destruct items as [|kv2 items].
  - simpl map. simpl sep_by. rewrite members_step by exact Hv.
    rewrite skip_ws_close by reflexivity. reflexivity.
  - change (sep_by ("," %char :: newline_indent (S lvl)) (map (kv_enc lvl) ((k, v) :: kv2 :: items)))
      with (kv_enc lvl (k, v) ++ ("," %char :: newline_indent (S lvl)) ++
            sep_by ("," %char :: newline_indent (S lvl)) (map (kv_enc lvl) (kv2 :: items))).
    rewrite <- app_assoc, members_step by exact Hv.
    rewrite <- !app_comm_cons.
    remember ((newline_indent (S lvl) ++
              sep_by ("," %char :: newline_indent (S lvl)) (map (kv_enc lvl) (kv2 :: items)))
              ++ newline_indent lvl ++ "}"%char :: r) as T eqn:HT.
    simpl. subst T. rewrite <- app_assoc.
    rewrite members_indent, IH by (try discriminate; auto; simpl in *; lia).
    simpl. now rewrite <- app_assoc.
Qed.

Definition SEP (lvl : nat) : list ascii := ","%char :: newline_indent (S lvl).

Lemma encode_obj lvl kv items :
  encode lvl (JObj (kv :: items)) =
  "{"%char :: newline_indent (S lvl) ++ sep_by (SEP lvl) (map (kv_enc lvl) (kv :: items))
    ++ newline_indent lvl ++ ["}"%char].
Proof. reflexivity. Qed.

Lemma encode_arr lvl o objs :
  encode lvl (JArr (o :: objs)) =
  "["%char :: newline_indent (S lvl) ++ sep_by (SEP lvl) (map (encode (S lvl)) (o :: objs))
    ++ newline_indent lvl ++ ["]"%char].
Proof. reflexivity. Qed.

Lemma value_open_obj F l :
  value (S F) ("{"%char :: l) =
  match skip_ws l with
  | c' :: r' =>
      if Ascii.eqb c' "}"%char then Some (JObj [], r')
      else match members F (value F) [] (c' :: r') with
           | Some (items, r'') => Some (JObj items, r'')
           | None => None
           end
  | [] => None
  end.
Proof. reflexivity. Qed.

Lemma value_open_arr F l :
  value (S F) ("["%char :: l) =
  match skip_ws l with
  | c' :: r' =>
      if Ascii.eqb c' "]"%char then Some (JArr [], r')
      else match elems F (value F) [] (c' :: r') with
           | Some (items, r'') => Some (JArr items, r'')
           | None => None
           end
  | [] => None
  end.
Proof. reflexivity. Qed.

Lemma kv_enc_head lvl kv t :
  exists rest, kv_enc lvl kv ++ t = Csv.DQ :: rest.
Proof. unfold kv_enc. rewrite <- app_assoc, encode_string_app. eauto. Qed.

Lemma sep_by_head sep x xs t :
  exists t', sep_by sep (x :: xs) ++ t = x ++ t'.
Proof.
  destruct xs as [|y xs]; simpl; [eauto|].
  rewrite <- app_assoc. eauto.
Qed.

Lemma skip_ws_dq l : skip_ws (Csv.DQ :: l) = Csv.DQ :: l.
Proof. reflexivity. Qed.

Lemma dq_not_close : Ascii.eqb Csv.DQ "}"%char = false.
Proof. reflexivity. Qed.

Lemma value_obj F lvl items r :
  items <> [] -> Forall (fun kv => flat (snd kv)) items -> length items < F ->
  value (S F) (encode lvl (JObj items) ++ r) = Some (JObj items, r).
Proof.
  intros Hne Hflat Hlen. destruct items as [|kv items]; [congruence|].
  destruct F as [|G]; [lia|].
  rewrite encode_obj, <- app_comm_cons, value_open_obj.
  rewrite <- !app_assoc, skip_ws_indent. change (["}"%char] ++ r) with ("}"%char :: r).
  destruct (sep_by_head (SEP lvl) (kv_enc lvl kv) (map (kv_enc lvl) items)
             (newline_indent lvl ++ "}"%char :: r)) as [t Ht].
  destruct (kv_enc_head lvl kv t) as [rest Hrest].
  assert (Hsep : sep_by (SEP lvl) (map (kv_enc lvl) (kv :: items)) ++
                 newline_indent lvl ++ "}"%char :: r = Csv.DQ :: rest).
  { simpl map. now rewrite Ht. }
  rewrite Hsep, skip_ws_dq. cbv beta iota. rewrite dq_not_close.
  cbv beta iota. rewrite <- Hsep.
  unfold SEP. rewrite members_parse by (auto; simpl in *; lia).
  reflexivity.
Qed.

Lemma SEP_app lvl l : SEP lvl ++ l = ","%char :: (newline_indent (S lvl) ++ l).
Proof. reflexivity. Qed.

Lemma elems_step E val acc x o t :
  val (x ++ t) = Some (o, t) ->
  elems (S E) val acc (x ++ t) =
  match skip_ws t with
  | c :: r' =>
      if Ascii.eqb c ","%char then elems E val (o :: acc) r'
      else if Ascii.eqb c "]"%char then Some (rev (o :: acc), r')
      else None
  | [] => None
  end.
Proof. intro Hv. simpl. now rewrite Hv. Qed.

Lemma elems_indent E G acc n l :
  elems E (value G) acc (newline_indent n ++ l) = elems E (value G) acc l.
Proof. destruct E; cbn [elems]; [reflexivity|]. now rewrite value_indent. Qed.

Lemma elems_parse lvl G objs E acc r :
  objs <> [] ->
  Forall (fun o => forall t, value G (encode (S lvl) o ++ t) = Some (o, t)) objs ->
  length objs <= E ->
  elems E (value G) acc
    (sep_by (SEP lvl) (map (encode (S lvl)) objs) ++ newline_indent lvl ++ "]"%char :: r) =
  Some (rev acc ++ objs, r).
Proof.
  revert E acc. induction objs as [|o objs IH]; intros E acc Hne Hall Hlen;
    [congruence|].
  inversion Hall as [|? ? Ho Hrest]; subst.
  destruct E as [|E]; [simpl in Hlen; lia|].
  destruct objs as [|o2 objs].
  - simpl map. simpl sep_by. rewrite (elems_step _ _ _ _ o) by apply Ho.
    rewrite skip_ws_close by reflexivity. reflexivity.
  - change (sep_by (SEP lvl) (map (encode (S lvl)) (o :: o2 :: objs)))
      with (encode (S lvl) o ++ SEP lvl ++
            sep_by (SEP lvl) (map (encode (S lvl)) (o2 :: objs))).
    rewrite <- app_assoc, (elems_step _ _ _ _ o) by apply Ho.
    rewrite SEP_app, <- !app_comm_cons.
    remember ((newline_indent (S lvl) ++
              sep_by (SEP lvl) (map (encode (S lvl)) (o2 :: objs)))
              ++ newline_indent lvl ++ "]"%char :: r) as T eqn:HT.
    simpl. subst T. rewrite <- app_assoc.
    rewrite elems_indent, IH by (try discriminate; auto; simpl in *; lia).
    simpl. now rewrite <- app_assoc.
Qed.

Definition flat_obj (o : json) : Prop :=
  exists items, o = JObj items /\ items <> [] /\
                Forall (fun kv => flat (snd kv)) items.

Lemma obj_head lvl o t : flat_obj o -> exists rest, encode lvl o ++ t = "{"%char :: rest.
Proof.
  intros (items & -> & Hne & _). destruct items as [|kv items]; [congruence|].
  rewrite encode_obj. eexists. reflexivity.
Qed.

Lemma skip_ws_brace l : skip_ws ("{"%char :: l) = "{"%char :: l.
Proof. reflexivity. Qed.

Lemma value_arr F lvl objs r :
  objs <> [] ->
  Forall (fun o => exists items, o = JObj items /\ items <> [] /\
            Forall (fun kv => flat (snd kv)) items /\ S (length items) < F) objs ->
  length objs <= F ->
  value (S F) (encode lvl (JArr objs) ++ r) = Some (JArr objs, r).
Proof.
  intros Hne Hall Hlen. destruct objs as [|o objs]; [congruence|].
  assert (Hfl : Forall flat_obj (o :: objs)).
  { eapply Forall_impl; [|exact Hall]. intros o' (items & He & Hn & Hf & _).
    exists items. auto. }
  assert (Hv : Forall (fun o => forall t, value F (encode (S lvl) o ++ t) = Some (o, t))
                      (o :: objs)).
  { eapply Forall_impl; [|exact Hall]. intros o' (items & -> & Hn & Hf & Hl) t.
    destruct F as [|F]; [lia|]. apply value_obj; auto; lia. }
  rewrite encode_arr, <- app_comm_cons, value_open_arr.
  rewrite <- !app_assoc, skip_ws_indent. change (["]"%char] ++ r) with ("]"%char :: r).
  destruct (sep_by_head (SEP lvl) (encode (S lvl) o) (map (encode (S lvl)) objs)
             (newline_indent lvl ++ "]"%char :: r)) as [t Ht].
  inversion Hfl as [|? ? Ho _]; subst.
  destruct (obj_head (S lvl) o t Ho) as [rest Hrest].
  assert (Hsep : sep_by (SEP lvl) (map (encode (S lvl)) (o :: objs)) ++
                 newline_indent lvl ++ "]"%char :: r = "{"%char :: rest).
  { simpl map. now rewrite Ht. }
  rewrite Hsep, skip_ws_brace. cbv beta iota. change (Ascii.eqb "{"%char "]"%char) with false.
  cbv beta iota. rewrite <- Hsep.
  rewrite elems_parse by auto. reflexivity.
Qed.

Lemma len_sep_in sep x xs : In x xs -> length x <= length (sep_by sep xs).
Proof.
  induction xs as [|y xs IH]; intro Hin; [destruct Hin|].
  destruct Hin as [<- | Hin].
  - destruct xs; simpl; rewrite ?length_app; lia.
  - destruct xs as [|z xs]; [destruct Hin|].
    specialize (IH Hin). simpl. rewrite !length_app. simpl in IH. lia.
Qed.

Lemma len_sep_count sep xs :
  Forall (fun x => x <> []) xs -> length xs <= length (sep_by sep xs).
Proof.
  induction xs as [|x xs IH]; intro Hne; simpl; [lia|].
  inversion Hne as [|? ? Hx Hxs]; subst.
  destruct x as [|c x]; [congruence|].
  destruct xs as [|y xs]; simpl; [lia|].
  specialize (IH Hxs). simpl in IH. rewrite !length_app. simpl. lia.
Qed.

Lemma len_obj lvl items :
  items <> [] -> length items + 4 <= length (encode lvl (JObj items)).
Proof.
  intro Hne. destruct items as [|kv items]; [congruence|].
  rewrite encode_obj. simpl length. rewrite !length_app.
  assert (length (kv :: items) <= length (sep_by (SEP lvl) (map (kv_enc lvl) (kv :: items)))).
  { rewrite <- (length_map (kv_enc lvl)). apply len_sep_count.
    apply Forall_forall. intros x Hx. apply in_map_iff in Hx as ([k v] & <- & _).
    unfold kv_enc. rewrite encode_string_app. discriminate. }
  unfold newline_indent in *. simpl length in *. lia.
Qed.

Lemma loads_flat_objs objs :
  Forall flat_obj objs -> loads (dumps (JArr objs)) = Some (JArr objs).
Proof.
  intro Hfl. destruct objs as [|o objs]; [reflexivity|].
  unfold loads, dumps. rewrite list_ascii_of_string_of_list_ascii.
  set (l := encode 0 (JArr (o :: objs))).
  assert (Hl : length l = 6 + length (sep_by (SEP 0) (map (encode 1) (o :: objs)))).
  { unfold l. rewrite encode_arr. simpl length.
    rewrite !length_app. unfold newline_indent. simpl. lia. }
  destruct (length l) as [|F] eqn:HF; [lia|].
  rewrite <- (app_nil_r l). unfold l. rewrite value_arr; [reflexivity|discriminate| |].
  - apply Forall_forall. intros o' Hin.
    pose proof (proj1 (Forall_forall _ _) Hfl o' Hin) as (items & -> & Hne & Hf).
    exists items. repeat split; auto.
    pose proof (len_obj 1 items Hne).
    pose proof (len_sep_in (SEP 0) (encode 1 (JObj items)) (map (encode 1) (o :: objs))
                  (in_map _ _ _ Hin)).
    lia.
  - pose proof (len_sep_count (SEP 0) (map (encode 1) (o :: objs))) as Hc.
    rewrite length_map in Hc. enough (length (o :: objs) <= length (sep_by (SEP 0) (map (encode 1) (o :: objs)))) by lia.
    apply Hc. apply Forall_forall. intros x Hx. apply in_map_iff in Hx as (o' & <- & Hin).
    pose proof (proj1 (Forall_forall _ _) Hfl o' Hin) as (items & -> & Hne & _).
    destruct items as [|kv items]; [congruence|]. rewrite encode_obj. discriminate.
Qed.
End JsonFacts.

Lemma good_row_flat_obj r : good_row r -> JsonFacts.flat_obj (row_object HEADER r).
Proof.
  intros (name & version & ty & path & h & -> & _).
  eexists. split; [reflexivity|]. split; [discriminate|].
  repeat constructor; destruct version; exact I.
Qed.

Lemma good_row_json_cells r :
  good_row r ->
  match row_object HEADER r with
  | Json.JObj items => map (fun k => JsonRead.dict_get k items) HEADER_KEYS
  | _ => map (fun _ => None) HEADER_KEYS
  end = map (fun v => Some (Json.of_pyval v)) r.
Proof. intros (name & version & ty & path & h & -> & _). reflexivity. Qed.

Lemma good_row_nonempty r : good_row r -> r <> [].
Proof. intros (name & version & ty & path & h & -> & _). discriminate. Qed.

Lemma json_records_rows rows :
  Forall good_row rows ->
  json_records (Json.dumps (sbom_json_value (HEADER :: rows))) =
  Some (map (map (fun v => Some (Json.of_pyval v))) rows).
Proof.
  intro Hg. unfold json_records, sbom_json_value. simpl hd. simpl tl.
  rewrite JsonFacts.loads_flat_objs.
  - f_equal. rewrite map_map. apply map_ext_Forall.
    eapply Forall_impl; [|exact Hg]. exact good_row_json_cells.
  - apply Forall_map. eapply Forall_impl; [|exact Hg]. exact good_row_flat_obj.
Qed.

Lemma csv_records_rows rows :
  Forall good_row rows ->
  csv_records (Csv.write_rows (HEADER :: rows)) =
  map (map (fun v => Some (Json.JStr (CsvFacts.csv_cell v)))) rows.
Proof.
  intro Hg. unfold csv_records. rewrite CsvFacts.read_write_rows.
  - simpl tl. rewrite map_map. apply map_ext. intro r. now rewrite map_map.
  - constructor; [discriminate|].
    eapply Forall_impl; [|exact Hg]. exact good_row_nonempty.
Qed.

Definition env_flask : Env := {|
  env_git := fun _ => git_ok;
  env_requirements := fun p =>
    if String.eqb p "/r/lib/requirements.txt"
    then Parsed ["flask==" ++ NL]
    else Missing;
  env_package_json := fun _ => Missing;
  env_lock := fun _ => Missing;
  env_iterdir := fun _ => None;
  env_write := fun _ => WriteOk
|}%string.

Definition repos_lib : Repos :=
  {| requirements_repos := ["/r/lib"%string]; package_json_repos := [] |}.

Definition flask_record (version : Json.json) : list (option Json.json) :=
  [Some (Json.JStr "flask"); Some version; Some (Json.JStr "pip");
   Some (Json.JStr "/r/lib/requirements.txt"); Some (Json.JStr HASH)]%string.

Definition flask_data : list row :=
  [HEADER; [PStr "flask"; PNone; PStr "pip"; PStr "/r/lib/requirements.txt"; PStr HASH]]%string.

(** C5 (counterexample): the line [flask==] gives a pip record with no
    version; after a run over [/r] with the one repository [lib], the
    record read back from [sbom.json] has [null] as version, the one read
    back from [sbom.csv] the empty string. *)
Lemma sbom_files_disagree_on_absent_version :
  exists js cs,
    w_files (snd (main env_flask "/r" [entry_lib] world0)) "/r/sbom.json" = Some js /\
    w_files (snd (main env_flask "/r" [entry_lib] world0)) "/r/sbom.csv" = Some cs /\
    json_records js = Some [flask_record Json.JNull] /\
    csv_records cs = [flask_record (Json.JStr EmptyString)] /\
    json_records js <> Some (csv_records cs).
Proof.
  vm_compute. do 2 eexists. split; [reflexivity|]. split; [reflexivity|].
  vm_compute. split; [reflexivity|]. split; [reflexivity|]. discriminate.
Qed.

(** C5 (amended): for the data [create_sbom_data] returns, the records read
    back from the text written to [sbom.csv] and from the text written to
    [sbom.json] are the same data rows, cell by cell and by header key,
    except that a cell absent in the data ([None], a pip version) reads
    back as the empty string from the CSV file and as [null] from the JSON
    file. *)
Theorem sbom_csv_json_readback : forall env repos w data w',
  create_sbom_data env repos w = (inr data, w') ->
  exists rows, data = HEADER :: rows /\
    csv_records (Csv.write_rows data) =
      map (map (fun v => Some (Json.JStr (CsvFacts.csv_cell v)))) rows /\
    json_records (Json.dumps (sbom_json_value data)) =
      Some (map (map (fun v => Some (Json.of_pyval v))) rows).
Proof.
  intros env repos w data w' H.
  destruct (create_sbom_data_good env repos w data w' H) as (rows & -> & Hg).
  exists rows. split; [reflexivity|].
  split; [apply csv_records_rows | apply json_records_rows]; exact Hg.
Qed.

Lemma sbom_csv_json_readback_witness :
  create_sbom_data env_flask repos_lib world0 = (inr flask_data, world0) /\
  exists rows, flask_data = HEADER :: rows /\
    csv_records (Csv.write_rows flask_data) =
      map (map (fun v => Some (Json.JStr (CsvFacts.csv_cell v)))) rows /\
    json_records (Json.dumps (sbom_json_value flask_data)) =
      Some (map (map (fun v => Some (Json.of_pyval v))) rows).
Proof.
  split; [vm_compute; reflexivity|].
  apply (sbom_csv_json_readback env_flask repos_lib world0 flask_data world0).
  vm_compute. reflexivity.
Defined.

(* ================================================================== *)
(** * Further properties of the program *)

(** ** Which files a run writes *)

(** A computation that leaves the files of the world as they are. *)
Definition keeps_files {A} (m : M A) : Prop :=
  forall w, w_files (snd (m w)) = w_files w.

Lemma keeps_ret {A} (a : A) : keeps_files (ret a).
Proof. intro w. reflexivity. Qed.

Lemma keeps_raise {A} e : keeps_files (@raise A e).
Proof. intro w. reflexivity. Qed.

Lemma keeps_print s : keeps_files (print s).
Proof. intro w. reflexivity. Qed.

Lemma keeps_bind {A B} (m : M A) (f : A -> M B) :
  keeps_files m -> (forall a, keeps_files (f a)) -> keeps_files (bind m f).
Proof.
  intros Hm Hf w. unfold bind. specialize (Hm w).
  destruct (m w) as [[e|a] w1]; simpl in *; [exact Hm|].
  rewrite Hf. exact Hm.
Qed.

Create HintDb keeps.
#[local] Hint Resolve keeps_ret keeps_raise keeps_print keeps_bind : keeps.

Lemma keeps_git env repo : keeps_files (git_commit_hash env repo).
Proof.
  unfold git_commit_hash.
  destruct (env_git env repo) as [[|n] o e | e]; [auto with keeps..|].
  destruct e; auto with keeps.
Qed.

Lemma keeps_index {A} (l : list A) i : keeps_files (index l i).
Proof. unfold index. destruct (nth_error l i); auto with keeps. Qed.

#[local] Hint Resolve keeps_git keeps_index : keeps.

Lemma keeps_requirements_rows env repo p lines :
  keeps_files (requirements_rows env repo p lines).
Proof.
  induction lines as [|l lines IH]; simpl; [auto with keeps|].
  destruct (parse_requirement_line l) as [[n v]|]; auto with keeps.
Qed.

Lemma keeps_package_json_rows env repo p deps :
  keeps_files (package_json_rows env repo p deps).
Proof. induction deps as [|[n v] deps IH]; simpl; auto with keeps. Qed.

Lemma keeps_lock_rows env repo p direct packages :
  keeps_files (lock_rows env repo p direct packages).
Proof.
  induction packages as [|[k i] packages IH]; simpl; [auto with keeps|].
  destruct (String.eqb k EmptyString); [exact IH|].
  destruct (is_dev i); [exact IH|].
  apply keeps_bind; [auto with keeps|]. intro name.
  destruct (existsb (String.eqb name) direct); auto with keeps.
Qed.

Lemma keeps_concat_rows f repos :
  (forall r, keeps_files (f r)) -> keeps_files (concat_rows f repos).
Proof. intro Hf. induction repos; simpl; auto with keeps. Qed.

Lemma keeps_pip_repo_rows env repo : keeps_files (pip_repo_rows env repo).
Proof.
  unfold pip_repo_rows. destruct (env_requirements env _);
    auto using keeps_requirements_rows with keeps.
Qed.

Lemma keeps_npm_repo_rows env repo : keeps_files (npm_repo_rows env repo).
Proof.
  unfold npm_repo_rows. destruct (env_package_json env _);
    auto using keeps_package_json_rows with keeps.
Qed.

Lemma keeps_lock_repo_rows env repo : keeps_files (lock_repo_rows env repo).
Proof.
  unfold lock_repo_rows. destruct (env_lock env _);
    auto using keeps_lock_rows with keeps.
Qed.

Lemma keeps_create_sbom_data env repos : keeps_files (create_sbom_data env repos).
Proof.
  unfold create_sbom_data, get_indirect_dependencies.
  repeat (apply keeps_bind; [|intro]);
    auto using keeps_concat_rows, keeps_pip_repo_rows, keeps_npm_repo_rows,
               keeps_lock_repo_rows with keeps.
Qed.

Lemma keeps_get_all_repos d entries : keeps_files (get_all_repos d entries).
Proof. unfold get_all_repos. auto with keeps. Qed.

Lemma keeps_get_all_repos_at env d entries :
  keeps_files (get_all_repos_at env d entries).
Proof.
  unfold get_all_repos_at. destruct (env_iterdir env d);
    auto using keeps_get_all_repos with keeps.
Qed.

(** X1: building the SBOM data reads the manifests and runs git but writes
    no file, whether it succeeds or raises. *)
Theorem create_sbom_data_writes_no_file : forall env repos w,
  w_files (snd (create_sbom_data env repos w)) = w_files w.
Proof. intros env repos. apply keeps_create_sbom_data. Qed.

(** What the two writers leave unchanged. *)
Lemma writers_other_files env d data w q :
  q <> path_join d "sbom.csv" -> q <> path_join d "sbom.json" ->
  w_files (snd ((_ <- create_sbom_csv env d data ;;
                 create_sbom_json env d data) w)) q =
  w_files w q.
Proof.
  intros Hc Hj.
  unfold create_sbom_csv, create_sbom_json.
  destruct (length data <? 2);
    cbv [bind print ret raise write_file close_file set_file];
    [reflexivity|].
  destruct (env_write env (path_join d "sbom.csv")) as [|?|? ? [|]];
    destruct (env_write env (path_join d "sbom.json")) as [|?|? ? [|]];
    simpl;
    repeat match goal with
           | |- context [String.eqb ?a ?b] =>
               destruct (String.eqb_spec a b); [congruence|]
           end; reflexivity.
Qed.

(** X2: a run writes no file of the world but [sbom.csv] and [sbom.json]
    in the scanned directory. *)
Theorem main_writes_only_sbom_files : forall env dir_path entries w q,
  q <> path_join dir_path "sbom.csv" ->
  q <> path_join dir_path "sbom.json" ->
  w_files (snd (main env dir_path entries w)) q = w_files w q.
Proof.
  intros env dir_path entries w q Hc Hj. unfold main, bind at 1.
  pose proof (keeps_get_all_repos_at env dir_path entries w) as H1.
  destruct (get_all_repos_at env dir_path entries w) as [[e|repos] w1];
    simpl in *; [now rewrite H1|].
  unfold bind at 1.
  pose proof (keeps_create_sbom_data env repos w1) as H2.
  destruct (create_sbom_data env repos w1) as [[e|data] w2]; simpl in *;
    [congruence|].
  change ((bind (create_sbom_csv env dir_path data)
                (fun _ => create_sbom_json env dir_path data)) w2)
    with ((_ <- create_sbom_csv env dir_path data ;;
           create_sbom_json env dir_path data) w2).
  rewrite writers_other_files by assumption. congruence.
Qed.

Lemma main_writes_only_sbom_files_witness :
  "/r/app/package.json"%string <> path_join "/r" "sbom.csv" /\
  "/r/app/package.json"%string <> path_join "/r" "sbom.json" /\
  w_files (snd (main env_lodash "/r" [entry_app] world0)) "/r/app/package.json" =
  w_files world0 "/r/app/package.json".
Proof.
  split; [discriminate|]. split; [discriminate|].
  apply main_writes_only_sbom_files; discriminate.
Defined.

(** X3: when [sbom.csv] and [sbom.json] can both be written, a run that
    raises (the root not listable, a manifest missing or unreadable, an
    exception out of git, an [IndexError] in the resolver) writes no file:
    both writers run only after all the data has been gathered. *)
Theorem main_failure_writes_no_file : forall env dir_path entries w e w',
  env_write env (path_join dir_path "sbom.csv") = WriteOk ->
  env_write env (path_join dir_path "sbom.json") = WriteOk ->
  main env dir_path entries w = (inl e, w') -> w_files w' = w_files w.
Proof.
  intros env dir_path entries w e w' Hc Hj H. unfold main, bind at 1 in H.
  pose proof (keeps_get_all_repos_at env dir_path entries w) as H1.
  destruct (get_all_repos_at env dir_path entries w) as [[e1|repos] w1];
    simpl in *.
  - injection H as _ <-. exact H1.
  - unfold bind at 1 in H.
    pose proof (keeps_create_sbom_data env repos w1) as H2.
    destruct (create_sbom_data env repos w1) as [[e2|data] w2]; simpl in *.
    + injection H as _ <-. congruence.
    + unfold create_sbom_csv, create_sbom_json in H.
      destruct (length data <? 2);
        cbv [bind print ret raise write_file close_file] in H;
        rewrite ?Hc, ?Hj in H; discriminate H.
Qed.

Lemma main_failure_writes_no_file_witness :
  env_write env_lodash (path_join "/r" "sbom.csv") = WriteOk /\
  env_write env_lodash (path_join "/r" "sbom.json") = WriteOk /\
  fst (main env_lodash "/r" [entry_lib] world0) = inl FileNotFoundError /\
  w_files (snd (main env_lodash "/r" [entry_lib] world0)) =
  w_files world0.
Proof.
  split; [reflexivity|]. split; [reflexivity|].
  split; [vm_compute; reflexivity|].
  apply (main_failure_writes_no_file env_lodash "/r" [entry_lib] world0
           FileNotFoundError); [reflexivity | reflexivity |].
  vm_compute. reflexivity.
Defined.

(** ** A directory without repositories *)

Lemma no_qualifying_filters entries :
  qualifying_repo_count entries = 0 ->
  filter de_has_requirements (filter de_is_dir entries) = [] /\
  filter de_has_package_json (filter de_is_dir entries) = [].
Proof.
  unfold qualifying_repo_count.
  induction entries as [|e entries IH]; simpl; [auto|].
  destruct (de_is_dir e) eqn:Hd, (de_has_requirements e) eqn:Hr,
           (de_has_package_json e) eqn:Hp; simpl; try discriminate; auto.
  - rewrite Hr, Hp. auto.
Qed.

(** X4: on a directory that can be listed but where no subdirectory holds a
    manifest, a run succeeds, reports 0 repositories, logs both skip
    messages and writes no file. *)
Theorem main_without_repositories : forall env dir_path entries w,
  env_iterdir env dir_path = None ->
  qualifying_repo_count entries = 0 ->
  main env dir_path entries w =
  (inr tt, {| w_log := w_log w ++
                ["Found 0 repos in '" ++ dir_path ++ "'";
                 "Terminating CSV SBOM creation...";
                 "Terminating JSON SBOM creation..."]%string;
              w_files := w_files w |}).
Proof.
  intros env dir_path entries w Hl H.
  destruct (no_qualifying_filters entries H) as [Hr Hp].
  unfold main, get_all_repos_at. rewrite Hl. unfold get_all_repos.
  rewrite Hr, Hp.
  cbv [bind print ret create_sbom_data get_indirect_dependencies concat_rows
       create_sbom_csv create_sbom_json]. simpl.
  now rewrite <- !app_assoc.
Qed.

Definition entry_notes : DirEntry :=
  {| de_name := "notes.txt"; de_is_dir := false; de_has_package_json := false;
     de_has_requirements := false |}.

Definition entry_empty_dir : DirEntry :=
  {| de_name := "docs"; de_is_dir := true; de_has_package_json := false;
     de_has_requirements := false |}.

Lemma main_without_repositories_witness :
  env_iterdir env_lodash "/r" = None /\
  qualifying_repo_count [entry_notes; entry_empty_dir] = 0 /\
  main env_lodash "/r" [entry_notes; entry_empty_dir] world0 =
  (inr tt, {| w_log := w_log world0 ++
                ["Found 0 repos in '" ++ "/r" ++ "'";
                 "Terminating CSV SBOM creation...";
                 "Terminating JSON SBOM creation..."]%string;
              w_files := w_files world0 |}).
Proof.
  split; [reflexivity|]. split; [reflexivity|].
  apply main_without_repositories; reflexivity.
Defined.

(** ** The repository lists *)

Definition path_le (a b : string) : Prop := String.leb a b = true.

Lemma insert_sorted_sorted x l :
  Sorted path_le l -> Sorted path_le (insert_sorted x l).
Proof.
  induction 1 as [|y l Hl IH Hhd]; simpl.
  - repeat constructor.
  - destruct (String.leb x y) eqn:Hxy.
    + constructor; [now constructor|]. constructor. exact Hxy.
    + constructor; [exact IH|].
      apply string_leb_false in Hxy.
      destruct l as [|z l]; simpl; [now constructor|].
      inversion Hhd as [|? ? Hyz]; subst.
      destruct (String.leb x z); constructor; assumption.
Qed.

Lemma sort_sorted l : Sorted path_le (sort l).
Proof. induction l; simpl; [constructor | now apply insert_sorted_sorted]. Qed.

Lemma filter_filter {A} (f g : A -> bool) l :
  filter g (filter f l) = filter (fun x => f x && g x) l.
Proof.
  induction l as [|x l IH]; simpl; [reflexivity|].
  destruct (f x); simpl; [destruct (g x); simpl; congruence | exact IH].
Qed.

(** X5: when [directory.iterdir()] raises, [get_all_repos] raises the same
    exception and prints nothing; otherwise it succeeds and each of its two
    lists holds the path [Path(dir_path) / name] of exactly the subdirectories
    holding the manifest, each once, sorted in ascending order. *)
Theorem get_all_repos_sorted_paths : forall env dir_path entries w,
  match env_iterdir env dir_path with
  | Some e => get_all_repos_at env dir_path entries w = (inl e, w)
  | None =>
  match fst (get_all_repos_at env dir_path entries w) with
  | inr repos =>
      Sorted path_le (requirements_repos repos) /\
      Permutation (requirements_repos repos)
        (map (fun e => path_join dir_path (de_name e))
             (filter (fun e => de_is_dir e && de_has_requirements e) entries)) /\
      Sorted path_le (package_json_repos repos) /\
      Permutation (package_json_repos repos)
        (map (fun e => path_join dir_path (de_name e))
             (filter (fun e => de_is_dir e && de_has_package_json e) entries))
  | inl _ => False
  end
  end.
Proof.
  intros env dir_path entries w. unfold get_all_repos_at.
  destruct (env_iterdir env dir_path); [reflexivity|].
  unfold get_all_repos. cbn.
  rewrite <- !filter_filter.
  repeat split; auto using sort_sorted, sort_perm.
Qed.

(** ** The pip and npm parsers when git succeeds *)

(** The name and version of each line of a [requirements.txt] that yields
    a record, in file order. *)
Definition parsed_requirements (lines : list string) : list (string * pyval) :=
  flat_map (fun l => match parse_requirement_line l with
                     | Some nv => [nv] | None => [] end) lines.

(** X6: when git succeeds in the repository, the pip parser emits one
    record per line that parses, in file order, each stamped with the file
    path and the stripped output of git, and logs nothing. *)
Theorem requirements_rows_git_ok :
  forall env repo_path requirements_path lines stdout stderr w,
  env_git env repo_path = Completed 0 stdout stderr ->
  requirements_rows env repo_path requirements_path lines w =
  (inr (map (fun nv => [PStr (fst nv); snd nv; PStr "pip";
                        PStr requirements_path; PStr (Py.strip stdout)])
            (parsed_requirements lines)), w).
Proof.
  intros env repo_path requirements_path lines stdout stderr w Hgit.
  induction lines as [|l lines IH]; [reflexivity|].
  simpl. destruct (parse_requirement_line l) as [[n v]|]; [|exact IH].
  unfold bind at 1, git_commit_hash. rewrite Hgit.
  cbn.
  unfold bind. rewrite IH. reflexivity.
Qed.

Lemma requirements_rows_git_ok_witness :
  env_git env_lodash "/r/lib" = Completed 0 (HASH ++ NL) EmptyString /\
  requirements_rows env_lodash "/r/lib" "/r/lib/requirements.txt"
    ["# tools" ++ NL; "requests>=2.0" ++ NL; "flask" ++ NL]%string world0 =
  (inr (map (fun nv => [PStr (fst nv); snd nv; PStr "pip";
                        PStr "/r/lib/requirements.txt"; PStr (Py.strip (HASH ++ NL))])
            (parsed_requirements
               ["# tools" ++ NL; "requests>=2.0" ++ NL; "flask" ++ NL]%string)),
   world0).
Proof.
  split; [reflexivity|].
  apply (requirements_rows_git_ok env_lodash "/r/lib" "/r/lib/requirements.txt"
           _ (HASH ++ NL) EmptyString world0).
  reflexivity.
Defined.

(** X7: when git succeeds in the repository, the npm direct parser emits
    one record per entry of [dependencies], in file order, with the name
    and version exactly as written, and logs nothing. *)
Theorem package_json_rows_git_ok :
  forall env repo_path package_json_path deps stdout stderr w,
  env_git env repo_path = Completed 0 stdout stderr ->
  package_json_rows env repo_path package_json_path deps w =
  (inr (map (fun nv => [PStr (fst nv); PStr (snd nv); PStr "npm";
                        PStr package_json_path; PStr (Py.strip stdout)]) deps), w).
Proof.
  intros env repo_path package_json_path deps stdout stderr w Hgit.
  induction deps as [|[n v] deps IH]; [reflexivity|].
  simpl. unfold bind at 1, git_commit_hash. rewrite Hgit. cbn.
  unfold bind. rewrite IH. reflexivity.
Qed.

Lemma package_json_rows_git_ok_witness :
  env_git env_lodash "/r/app" = Completed 0 (HASH ++ NL) EmptyString /\
  package_json_rows env_lodash "/r/app" "/r/app/package.json"
    [("lodash", "^4.17.21"); ("express", "~4.18.0")]%string world0 =
  (inr (map (fun nv => [PStr (fst nv); PStr (snd nv); PStr "npm";
                        PStr "/r/app/package.json"; PStr (Py.strip (HASH ++ NL))])
            [("lodash", "^4.17.21"); ("express", "~4.18.0")]%string), world0).
Proof.
  split; [reflexivity|].
  apply (package_json_rows_git_ok env_lodash "/r/app" "/r/app/package.json"
           _ (HASH ++ NL) EmptyString world0).
  reflexivity.
Defined.

(** ** The lockfile resolver *)

Definition non_root_non_dev (kv : string * LockEntry) : bool :=
  negb (String.eqb (fst kv) EmptyString) && negb (is_dev (snd kv)).

(** X8: every record of the lockfile resolver is an npm record of the
    lockfile whose name is not a direct dependency of the root entry, and
    there is at most one record per entry that is neither the root entry
    nor a dev entry. *)
Theorem lock_rows_indirect_only :
  forall env repo_path lock_path direct packages w rows w',
  lock_rows env repo_path lock_path direct packages w = (inr rows, w') ->
  Forall (fun r => exists name version commit_hash,
            r = [PStr name; PStr version; PStr "npm"; PStr lock_path;
                 PStr commit_hash] /\ ~ In name direct) rows /\
  length rows <= length (filter non_root_non_dev packages).
Proof.
  intros env repo_path lock_path direct packages.
  induction packages as [|[k i] packages IH]; intros w rows w' H; simpl in H.
  - injection H as <- _. split; [constructor | simpl; lia].
  - cbn [filter]. unfold non_root_non_dev at 1. cbn [fst snd].
    destruct (String.eqb k EmptyString); cbn [negb andb];
      [destruct (IH _ _ _ H); split; [assumption | lia]|].
    destruct (is_dev i); cbn [negb andb length];
      [destruct (IH _ _ _ H); split; [assumption | lia]|].
    apply bind_inr in H as (name & w1 & _ & H).
    destruct (existsb (String.eqb name) direct) eqn:Hd;
      [destruct (IH _ _ _ H); split; [assumption | lia]|].
    apply bind_inr in H as (h & w2 & _ & H).
    apply bind_inr in H as (rest & w3 & Hrest & H).
    injection H as <- _.
    destruct (IH _ _ _ Hrest) as [Hf Hl].
    split; [|simpl; lia].
    constructor; [|exact Hf].
    eexists _, _, _. split; [reflexivity|].
    intro Hin. assert (existsb (String.eqb name) direct = true)
      by (apply existsb_exists; exists name; split; [exact Hin | apply String.eqb_refl]).
    congruence.
Qed.

Lemma lock_rows_indirect_only_witness :
  lock_rows env_lodash "/r/app" "/r/app/package-lock.json" ["lodash"%string]
    (match lf_packages lodash_lock with Some p => p | None => [] end) world0 =
  (inr [[PStr "lodash/"; PStr "7.0.0"; PStr "npm";
         PStr "/r/app/package-lock.json"; PStr HASH]]%string, world0) /\
  Forall (fun r => exists name version commit_hash,
            r = [PStr name; PStr version; PStr "npm";
                 PStr "/r/app/package-lock.json"; PStr commit_hash] /\
            ~ In name ["lodash"%string])
    [[PStr "lodash/"; PStr "7.0.0"; PStr "npm";
      PStr "/r/app/package-lock.json"; PStr HASH]]%string /\
  length [[PStr "lodash/"; PStr "7.0.0"; PStr "npm";
           PStr "/r/app/package-lock.json"; PStr HASH]]%string <=
  length (filter non_root_non_dev
            (match lf_packages lodash_lock with Some p => p | None => [] end)).
Proof.
  assert (H : lock_rows env_lodash "/r/app" "/r/app/package-lock.json" ["lodash"%string]
    (match lf_packages lodash_lock with Some p => p | None => [] end) world0 =
    (inr [[PStr "lodash/"; PStr "7.0.0"; PStr "npm";
           PStr "/r/app/package-lock.json"; PStr HASH]]%string, world0))
    by (vm_compute; reflexivity).
  split; [exact H|].
  exact (lock_rows_indirect_only env_lodash "/r/app" "/r/app/package-lock.json"
           ["lodash"%string] _ world0 _ world0 H).
Defined.

Lemma list_ascii_of_string_app a b :
  list_ascii_of_string (a ++ b) = list_ascii_of_string a ++ list_ascii_of_string b.
Proof. induction a; simpl; congruence. Qed.

Lemma is_prefix_l_app p m : Py.is_prefix_l p (p ++ m) = true.
Proof. induction p; simpl; [reflexivity|]. now rewrite Ascii.eqb_refl. Qed.

Lemma split_go_skip sep l m acc :
  Py.split_go sep (l ++ m) (length l) acc = Py.split_go sep m 0 acc.
Proof.
  revert acc. induction l as [|c l IH]; intro acc; simpl; [reflexivity|].
  apply IH.
Qed.

Lemma split_go_sep_prefix c sep' m acc :
  Py.split_go (c :: sep') ((c :: sep') ++ m) 0 acc =
  rev acc :: Py.split_go (c :: sep') m 0 [].
Proof.
  cbn [app Py.split_go].
  replace (Py.is_prefix_l (c :: sep') (c :: sep' ++ m)) with true
    by (symmetry; apply (is_prefix_l_app (c :: sep') m)).
  cbn [pred length]. now rewrite split_go_skip.
Qed.

(** [("node_modules/" + n).split("node_modules/")] is [["", n]] when [n]
    holds no further separator. *)
Lemma split_node_modules_prefix n :
  Py.contains "node_modules/" n = false ->
  Py.split "node_modules/" ("node_modules/" ++ n) = [EmptyString; n].
Proof.
  intro Hn. unfold Py.split. rewrite list_ascii_of_string_app.
  change (list_ascii_of_string "node_modules/") with
    ("n"%char :: list_ascii_of_string "ode_modules/").
  rewrite split_go_sep_prefix, split_go_no_sep by exact Hn.
  simpl. now rewrite string_of_list_ascii_of_string.
Qed.

Definition lock_version (info : LockEntry) : string :=
  match le_version info with Some v => v | None => EmptyString end.

Lemma lock_rows_flat_entries_aux :
  forall env repo_path lock_path direct entries stdout stderr w,
  Forall (fun ni => Py.contains "node_modules/" (fst ni) = false) entries ->
  env_git env repo_path = Completed 0 stdout stderr ->
  lock_rows env repo_path lock_path direct
    (map (fun ni => ("node_modules/" ++ fst ni, snd ni)%string) entries) w =
  (inr (map (fun ni => [PStr (fst ni); PStr (lock_version (snd ni)); PStr "npm";
                        PStr lock_path; PStr (Py.strip stdout)])
            (filter (fun ni => negb (is_dev (snd ni)) &&
                               negb (existsb (String.eqb (fst ni)) direct))
                    entries)), w).
Proof.
  intros env repo_path lock_path direct entries stdout stderr w Hall Hgit.
  induction entries as [|[n i] entries IH]; [reflexivity|].
  inversion Hall as [|? ? Hn Hrest]; subst. specialize (IH Hrest).
  cbn [fst snd] in Hn. cbn [map lock_rows filter fst snd].
  replace (String.eqb ("node_modules/" ++ n) EmptyString) with false
    by reflexivity.
  destruct (is_dev i); cbn [negb andb]; [exact IH|].
  unfold bind at 1, index. rewrite split_node_modules_prefix by exact Hn.
  cbn [nth_error ret].
  destruct (existsb (String.eqb n) direct); cbn [negb andb]; [exact IH|].
  unfold bind at 1, git_commit_hash. rewrite Hgit. cbn.
  unfold bind.
  change (lock_rows env repo_path lock_path direct (map _ entries) w) with
    (lock_rows env repo_path lock_path direct
       (map (fun ni : string * LockEntry =>
               (("node_modules/" ++ fst ni)%string, snd ni)) entries) w).
  rewrite IH. reflexivity.
Qed.

(** X9: for a lockfile whose entries are keyed [node_modules/<name>] (no
    nested [node_modules/]), when git succeeds, the resolver emits, in
    file order, one record per non-dev entry whose name is not a direct
    dependency, with the entry's version (the empty string when it has
    none), and logs nothing. *)
Theorem lock_rows_flat_entries :
  forall env repo_path lock_path direct entries stdout stderr w,
  Forall (fun ni => Py.contains "node_modules/" (fst ni) = false) entries ->
  env_git env repo_path = Completed 0 stdout stderr ->
  lock_rows env repo_path lock_path direct
    (map (fun ni => ("node_modules/" ++ fst ni, snd ni)%string) entries) w =
  (inr (map (fun ni => [PStr (fst ni); PStr (lock_version (snd ni)); PStr "npm";
                        PStr lock_path; PStr (Py.strip stdout)])
            (filter (fun ni => negb (is_dev (snd ni)) &&
                               negb (existsb (String.eqb (fst ni)) direct))
                    entries)), w).
Proof.
  intros env repo_path lock_path direct entries stdout stderr w Hall Hgit.
  exact (lock_rows_flat_entries_aux env repo_path lock_path direct entries
           stdout stderr w Hall Hgit).
Qed.

Definition flat_lock_entries : list (string * LockEntry) := [
  ("lodash", {| le_dev := None; le_version := Some "4.17.21"; le_dependencies := None |});
  ("ms", {| le_dev := None; le_version := Some "2.1.3"; le_dependencies := None |});
  ("jest", {| le_dev := Some true; le_version := Some "29.0.0"; le_dependencies := None |});
  ("debug", {| le_dev := Some false; le_version := None; le_dependencies := None |})
]%string.

Lemma lock_rows_flat_entries_witness :
  Forall (fun ni => Py.contains "node_modules/" (fst ni) = false) flat_lock_entries /\
  env_git env_lodash "/r/app" = Completed 0 (HASH ++ NL) EmptyString /\
  lock_rows env_lodash "/r/app" "/r/app/package-lock.json" ["lodash"%string]
    (map (fun ni => ("node_modules/" ++ fst ni, snd ni)%string) flat_lock_entries)
    world0 =
  (inr (map (fun ni => [PStr (fst ni); PStr (lock_version (snd ni)); PStr "npm";
                        PStr "/r/app/package-lock.json"; PStr (Py.strip (HASH ++ NL))])
            (filter (fun ni => negb (is_dev (snd ni)) &&
                               negb (existsb (String.eqb (fst ni)) ["lodash"%string]))
                    flat_lock_entries)), world0).
Proof.
  split; [repeat constructor|]. split; [reflexivity|].
  apply lock_rows_flat_entries with (stderr := EmptyString);
    [repeat constructor | reflexivity].
Defined.

(** X10: a repository without [package-lock.json] is skipped with one
    error line: when no npm repository has a lockfile, the resolver
    succeeds with no record and logs one line per repository, in order. *)
Theorem indirect_dependencies_without_lockfiles : forall env repos w,
  Forall (fun r => env_lock env (path_join r "package-lock.json") = Missing)
         (package_json_repos repos) ->
  get_indirect_dependencies env repos w =
  (inr [], {| w_log := w_log w ++
                map (fun r => "Error: package-lock.json not found at "
                                ++ path_join r "package-lock.json")%string
                    (package_json_repos repos);
              w_files := w_files w |}).
Proof.
  intros env repos. unfold get_indirect_dependencies.
  induction (package_json_repos repos) as [|r rs IH]; intros w Hall; simpl.
  - rewrite app_nil_r. now destruct w.
  - inversion Hall as [|? ? Hr Hrs]; subst.
    unfold bind at 1, lock_repo_rows. rewrite Hr. cbn.
    unfold bind. rewrite IH by exact Hrs. simpl.
    now rewrite <- app_assoc.
Qed.

Lemma indirect_dependencies_without_lockfiles_witness :
  Forall (fun r => env_lock env_lodash (path_join r "package-lock.json") = Missing)
         ["/r/lib"; "/r/web"]%string /\
  get_indirect_dependencies env_lodash
    {| requirements_repos := []; package_json_repos := ["/r/lib"; "/r/web"]%string |}
    world0 =
  (inr [], {| w_log := w_log world0 ++
                map (fun r => "Error: package-lock.json not found at "
                                ++ path_join r "package-lock.json")%string
                    ["/r/lib"; "/r/web"]%string;
              w_files := w_files world0 |}).
Proof.
  split; [repeat constructor|].
  apply (indirect_dependencies_without_lockfiles env_lodash
           {| requirements_repos := []; package_json_repos := ["/r/lib"; "/r/web"]%string |}).
  repeat constructor.
Defined.

(** A lockfile without a root entry (key [""]) has no direct dependency. *)
Lemma lookup_root_flat (entries : list (string * LockEntry)) :
  lookup EmptyString
    (map (fun ni => ("node_modules/" ++ fst ni, snd ni)%string) entries) = None.
Proof. induction entries as [|[n i] entries IH]; [reflexivity|]. exact IH. Qed.

Lemma filter_ext_true {A} (f g : A -> bool) l :
  (forall x, f x = g x) -> filter f l = filter g l.
Proof.
  intro H. induction l as [|x l IH]; simpl; [reflexivity|].
  now rewrite H, IH.
Qed.

(** X11: a [package-lock.json] whose [packages] has no root entry (every
    key is [node_modules/<name>], none nested): no package counts as
    direct, so when git succeeds the resolver reports every non-dev
    entry, in file order, and logs nothing. *)
Theorem lock_repo_rows_without_root : forall env repo_path entries stdout stderr w,
  Forall (fun ni => Py.contains "node_modules/" (fst ni) = false) entries ->
  env_lock env (path_join repo_path "package-lock.json") =
    Parsed {| lf_packages :=
                Some (map (fun ni => ("node_modules/" ++ fst ni, snd ni)%string)
                          entries) |} ->
  env_git env repo_path = Completed 0 stdout stderr ->
  lock_repo_rows env repo_path w =
  (inr (map (fun ni => [PStr (fst ni); PStr (lock_version (snd ni)); PStr "npm";
                        PStr (path_join repo_path "package-lock.json");
                        PStr (Py.strip stdout)])
            (filter (fun ni => negb (is_dev (snd ni))) entries)), w).
Proof.
  intros env repo_path entries stdout stderr w Hall Hlock Hgit.
  unfold lock_repo_rows. rewrite Hlock. cbn [lf_packages].
  rewrite lookup_root_flat. cbn [le_dependencies empty_entry map].
  rewrite (lock_rows_flat_entries_aux _ _ _ _ _ _ _ _ Hall Hgit).
  f_equal. f_equal. f_equal. apply filter_ext_true. intro x.
  simpl. now rewrite andb_true_r.
Qed.

Definition env_no_root : Env := {|
  env_git := fun _ => git_ok;
  env_requirements := fun _ => Missing;
  env_package_json := fun _ => Missing;
  env_lock := fun p =>
    if String.eqb p "/r/app/package-lock.json"
    then Parsed {| lf_packages :=
                     Some (map (fun ni => ("node_modules/" ++ fst ni, snd ni)%string)
                               flat_lock_entries) |}
    else Missing;
  env_iterdir := fun _ => None;
  env_write := fun _ => WriteOk
|}.

Lemma lock_repo_rows_without_root_witness :
  lock_repo_rows env_no_root "/r/app" world0 =
  (inr (map (fun ni => [PStr (fst ni); PStr (lock_version (snd ni)); PStr "npm";
                        PStr (path_join "/r/app" "package-lock.json");
                        PStr (Py.strip (HASH ++ NL))])
            (filter (fun ni => negb (is_dev (snd ni))) flat_lock_entries)), world0).
Proof.
  apply (lock_repo_rows_without_root env_no_root "/r/app" flat_lock_entries
           (HASH ++ NL) EmptyString world0);
    [repeat constructor | reflexivity | reflexivity].
Defined.

(** ** [str.strip] and the pip line parser *)

Lemma forallb_rev_eq {A} (f : A -> bool) l : forallb f (rev l) = forallb f l.
Proof.
  induction l as [|x l IH]; simpl; [reflexivity|].
  rewrite forallb_app, IH. simpl. now rewrite andb_true_r, andb_comm.
Qed.

Lemma lstrip_app_spaces u l :
  forallb Py.isspace u = true -> Py.lstrip_l (u ++ l) = Py.lstrip_l l.
Proof.
  induction u as [|c u IH]; simpl; [reflexivity|].
  intro H. apply andb_prop in H as [Hc Hu]. rewrite Hc. exact (IH Hu).
Qed.

Lemma lstrip_app l v :
  Py.lstrip_l (l ++ v) =
  match Py.lstrip_l l with [] => Py.lstrip_l v | x => x ++ v end.
Proof.
  induction l as [|c l IH]; simpl; [reflexivity|].
  destruct (Py.isspace c); [exact IH | reflexivity].
Qed.

Lemma lstrip_idem l : Py.lstrip_l (Py.lstrip_l l) = Py.lstrip_l l.
Proof.
  induction l as [|c l IH]; simpl; [reflexivity|].
  destruct (Py.isspace c) eqn:Hc; [exact IH|]. simpl. now rewrite Hc.
Qed.

Lemma lstrip_forallb (f : ascii -> bool) l :
  forallb f l = true -> forallb f (Py.lstrip_l l) = true.
Proof.
  destruct (lstrip_suffix l) as [p Hp]. intro H.
  rewrite Hp, forallb_app in H. now apply andb_prop in H as [_ H].
Qed.

Lemma strip_forallb (f : ascii -> bool) l :
  forallb f l = true -> forallb f (Py.strip_l l) = true.
Proof.
  intro H. unfold Py.strip_l.
  rewrite forallb_rev_eq. apply lstrip_forallb. rewrite forallb_rev_eq.
  now apply lstrip_forallb.
Qed.

(** Stripping ignores white space added on either side. *)
Lemma strip_l_pad u l v :
  forallb Py.isspace u = true -> forallb Py.isspace v = true ->
  Py.strip_l (u ++ l ++ v) = Py.strip_l l.
Proof.
  intros Hu Hv. unfold Py.strip_l.
  rewrite lstrip_app_spaces by exact Hu. rewrite lstrip_app.
  destruct (Py.lstrip_l l) as [|x t] eqn:E.
  - rewrite <- (app_nil_r v), lstrip_app_spaces by exact Hv. reflexivity.
  - rewrite rev_app_distr, lstrip_app_spaces by now rewrite forallb_rev_eq.
    reflexivity.
Qed.

Lemma strip_l_lstrip l : Py.strip_l (Py.lstrip_l l) = Py.strip_l l.
Proof. unfold Py.strip_l. now rewrite lstrip_idem. Qed.

Lemma lstrip_strip l : Py.lstrip_l (Py.strip_l l) = Py.strip_l l.
Proof.
  destruct (Py.strip_l l) as [|c t] eqn:E; [reflexivity|].
  simpl. now rewrite (strip_head _ _ _ E).
Qed.

Lemma strip_l_idem l : Py.strip_l (Py.strip_l l) = Py.strip_l l.
Proof.
  unfold Py.strip_l at 1. rewrite lstrip_strip. unfold Py.strip_l.
  now rewrite rev_involutive, lstrip_idem.
Qed.

(** Stripping a text [a ++ y :: b] that starts without white space and
    has a non-space [y] keeps [a ++ [y]]. *)
Lemma strip_l_keep a y b :
  Py.lstrip_l a = a -> Py.isspace y = false ->
  exists z, Py.strip_l (a ++ y :: b) = a ++ y :: z.
Proof.
  intros Ha Hy. unfold Py.strip_l.
  assert (H1 : Py.lstrip_l (a ++ y :: b) = a ++ y :: b).
  { rewrite lstrip_app, Ha. destruct a as [|c a]; [simpl; now rewrite Hy|].
    reflexivity. }
  rewrite H1, rev_app_distr. simpl rev at 2. rewrite <- app_assoc.
  rewrite lstrip_app. destruct (Py.lstrip_l (rev b)) as [|w ws].
  - exists []. simpl. rewrite Hy. simpl. rewrite rev_involutive.
    reflexivity.
  - exists (rev ws ++ [w]). rewrite !rev_app_distr, rev_involutive.
    simpl. rewrite <- !app_assoc. reflexivity.
Qed.

(** X12: white space around a line of [requirements.txt] (the line's own
    [\n] or [\r\n], indentation) does not change what the pip parser takes
    from it. *)
Theorem parse_requirement_line_pad : forall u s v,
  forallb Py.isspace (list_ascii_of_string u) = true ->
  forallb Py.isspace (list_ascii_of_string v) = true ->
  parse_requirement_line (u ++ s ++ v) = parse_requirement_line s.
Proof.
  intros u s v Hu Hv. unfold parse_requirement_line.
  replace (Py.strip (u ++ s ++ v)) with (Py.strip s); [reflexivity|].
  unfold Py.strip. now rewrite !list_ascii_of_string_app, strip_l_pad.
Qed.

Definition CRLF : string := String "013" (String "010" EmptyString).

Lemma parse_requirement_line_pad_witness :
  parse_requirement_line ("  " ++ "flask>=2.0" ++ CRLF) =
  parse_requirement_line "flask>=2.0".
Proof. apply parse_requirement_line_pad; reflexivity. Defined.

(** A character other than [#]. *)
Definition no_hash (c : ascii) : bool := negb (Ascii.eqb c "#"%char).

Lemma before_char_no_hash l :
  forallb no_hash l = true ->
  Py.before_char "#" (string_of_list_ascii l) = string_of_list_ascii l.
Proof.
  induction l as [|c l IH]; intro H; [reflexivity|].
  cbn [forallb] in H. apply andb_prop in H as [Hc Hl].
  unfold no_hash in Hc. apply negb_true_iff in Hc.
  cbn [string_of_list_ascii Py.before_char]. rewrite Hc, IH by exact Hl.
  reflexivity.
Qed.

Lemma before_char_hash l r :
  forallb no_hash l = true ->
  Py.before_char "#" (string_of_list_ascii (l ++ "#"%char :: r)) =
  string_of_list_ascii l.
Proof.
  induction l as [|c l IH]; intro H; [reflexivity|].
  cbn [forallb] in H. apply andb_prop in H as [Hc Hl].
  unfold no_hash in Hc. apply negb_true_iff in Hc.
  cbn [app string_of_list_ascii Py.before_char]. rewrite Hc, IH by exact Hl.
  reflexivity.
Qed.

Lemma startswith_hash_false c t :
  no_hash c = true ->
  Py.startswith "#" (string_of_list_ascii (c :: t)) = false.
Proof.
  intro Hc. unfold Py.startswith. cbn [string_of_list_ascii String.prefix].
  destruct (ascii_dec "#" c) as [<-|]; [discriminate Hc | reflexivity].
Qed.

Lemma startswith_hash_true r : Py.startswith "#" (String "#" r) = true.
Proof.
  unfold Py.startswith. cbn [String.prefix].
  destruct (ascii_dec "#" "#") as [_|n]; [now destruct r | now contradiction n].
Qed.

(** X13: an inline comment does not change what the pip parser takes from
    a line: when [s] has no [#], the line [s # c] parses as [s]. *)
Theorem parse_requirement_line_inline_comment : forall s c,
  forallb no_hash (list_ascii_of_string s) = true ->
  parse_requirement_line (s ++ "#" ++ c) = parse_requirement_line s.
Proof.
  intros s c Hs.
  assert (Hline : list_ascii_of_string (s ++ "#" ++ c) =
                  list_ascii_of_string s ++ "#"%char :: list_ascii_of_string c).
  { rewrite !list_ascii_of_string_app. reflexivity. }
  assert (Hstrip : forall l, Py.strip (string_of_list_ascii l) =
                             string_of_list_ascii (Py.strip_l l)).
  { intro l. unfold Py.strip. now rewrite list_ascii_of_string_of_list_ascii. }
  set (L := list_ascii_of_string s) in *.
  set (C := list_ascii_of_string c) in *.
  destruct (Py.lstrip_l L) as [|x t] eqn:E.
  - apply lstrip_nil in E.
    assert (H1 : exists z, Py.strip (s ++ "#" ++ c) =
                           String "#" (string_of_list_ascii z)).
    { unfold Py.strip. rewrite Hline.
      rewrite <- (app_nil_r (_ :: C)), strip_l_pad by (exact E || reflexivity).
      destruct (strip_l_keep [] "#"%char C eq_refl eq_refl) as [z Hz].
      exists z. cbn [app] in Hz. now rewrite Hz. }
    assert (H2 : Py.strip s = EmptyString).
    { unfold Py.strip. fold L.
      rewrite <- (app_nil_r L), <- (app_nil_r (L ++ [])), <- app_assoc,
        strip_l_pad by (exact E || reflexivity).
      reflexivity. }
    destruct H1 as [z H1]. unfold parse_requirement_line. rewrite H1, H2.
    rewrite startswith_hash_true. reflexivity.
  - assert (Hx : Py.isspace x = false) by exact (lstrip_head _ _ _ E).
    assert (Hnh : forallb no_hash (x :: t) = true)
      by (rewrite <- E; now apply lstrip_forallb).
    assert (Hxt : Py.lstrip_l (x :: t) = x :: t) by (simpl; now rewrite Hx).
    cbn [forallb] in Hnh. apply andb_prop in Hnh as [Hxh Hth].
    destruct (strip_l_keep (x :: t) "#"%char C Hxt eq_refl) as [z Hz].
    destruct (strip_l_keep [] x t eq_refl Hx) as [z' Hz'].
    cbn [app] in Hz'.
    assert (H1 : Py.strip (s ++ "#" ++ c) =
                 string_of_list_ascii ((x :: t) ++ "#"%char :: z)).
    { unfold Py.strip. rewrite Hline.
      rewrite <- (strip_l_lstrip (L ++ _)), lstrip_app, E, Hz. reflexivity. }
    assert (H2 : Py.strip s = string_of_list_ascii (x :: z')).
    { unfold Py.strip. fold L. rewrite <- (strip_l_lstrip L), E, Hz'.
      reflexivity. }
    assert (H3 : Py.strip (Py.before_char "#"
                   (string_of_list_ascii ((x :: t) ++ "#"%char :: z))) =
                 Py.strip s).
    { rewrite before_char_hash by (cbn [forallb]; now rewrite Hxh, Hth).
      rewrite Hstrip. unfold Py.strip. fold L.
      now rewrite <- (strip_l_lstrip L), E. }
    assert (H4 : Py.strip (Py.before_char "#" (string_of_list_ascii (x :: z'))) =
                 Py.strip s).
    { rewrite before_char_no_hash.
      - rewrite H2, Hstrip, <- Hz', strip_l_idem. reflexivity.
      - rewrite <- Hz'. apply strip_forallb. cbn [forallb].
        now rewrite Hxh, Hth. }
    unfold parse_requirement_line. rewrite H1, H2, H3, H4.
    cbn [app]. rewrite !startswith_hash_false by exact Hxh.
    reflexivity.
Qed.

Lemma parse_requirement_line_inline_comment_witness :
  parse_requirement_line ("requests>=2.0 " ++ "#" ++ " pinned") =
  parse_requirement_line "requests>=2.0 ".
Proof. apply parse_requirement_line_inline_comment. reflexivity. Defined.

(** ** The text of [sbom.json] *)

(** A printable ASCII character ([' '..'~']) or a line feed. *)
Definition json_text_char (c : ascii) : bool :=
  let n := nat_of_ascii c in ((32 <=? n) && (n <=? 126)) || (n =? 10).

Section JsonInd.
Variable P : Json.json -> Prop.
Hypothesis HNull : P Json.JNull.
Hypothesis HStr : forall s, P (Json.JStr s).
Hypothesis HArr : forall items, Forall P items -> P (Json.JArr items).
Hypothesis HObj : forall items, Forall (fun kv => P (snd kv)) items ->
                                P (Json.JObj items).

(** Induction on JSON values, through the items of arrays and objects. *)
Fixpoint json_ind' (v : Json.json) : P v :=
  match v with
  | Json.JNull => HNull
  | Json.JStr s => HStr s
  | Json.JArr items =>
      HArr items
        ((fix F (l : list Json.json) : Forall P l :=
            match l with
            | [] => Forall_nil P
            | x :: l' => @Forall_cons _ P x l' (json_ind' x) (F l')
            end) items)
  | Json.JObj items =>
      HObj items
        ((fix F (l : list (string * Json.json))
            : Forall (fun kv => P (snd kv)) l :=
            match l with
            | [] => Forall_nil _
            | (k, x) :: l' =>
                @Forall_cons _ (fun kv => P (snd kv)) (k, x) l' (json_ind' x) (F l')
            end) items)
  end.
End JsonInd.

Lemma escape_char_text c : forallb json_text_char (Json.escape_char c) = true.
Proof. destruct c as [[] [] [] [] [] [] [] []]; vm_compute; reflexivity. Qed.

Lemma concat_escape_text l :
  forallb json_text_char (concat (map Json.escape_char l)) = true.
Proof.
  induction l as [|c l IH]; [reflexivity|].
  cbn [map concat]. rewrite forallb_app, escape_char_text. exact IH.
Qed.

Lemma encode_string_text s : forallb json_text_char (Json.encode_string s) = true.
Proof.
  unfold Json.encode_string. cbn [forallb].
  rewrite forallb_app, concat_escape_text. reflexivity.
Qed.

Lemma newline_indent_text n : forallb json_text_char (Json.newline_indent n) = true.
Proof.
  unfold Json.newline_indent. cbn [forallb].
  induction (2 * n) as [|k IH]; [reflexivity|]. exact IH.
Qed.

Lemma sep_by_text sep xs :
  forallb json_text_char sep = true ->
  Forall (fun x => forallb json_text_char x = true) xs ->
  forallb json_text_char (Json.sep_by sep xs) = true.
Proof.
  intros Hs Hx. induction Hx as [|x xs Hx Hxs IH]; [reflexivity|].
  destruct xs as [|y ys]; [exact Hx|].
  change (Json.sep_by sep (x :: y :: ys)) with (x ++ sep ++ Json.sep_by sep (y :: ys)).
  rewrite !forallb_app, Hx, Hs, IH. reflexivity.
Qed.

Lemma sep_text lvl :
  forallb json_text_char (","%char :: Json.newline_indent (S lvl)) = true.
Proof. cbn [forallb]. now rewrite newline_indent_text. Qed.

Lemma encode_text v : forall lvl, forallb json_text_char (Json.encode lvl v) = true.
Proof.
  induction v as [| s | items IH | items IH] using json_ind'; intro lvl.
  - reflexivity.
  - apply encode_string_text.
  - destruct items as [|x xs]; [reflexivity|].
    change (Json.encode lvl (Json.JArr (x :: xs))) with
      ("["%char :: Json.newline_indent (S lvl)
        ++ Json.sep_by (","%char :: Json.newline_indent (S lvl))
                  (map (Json.encode (S lvl)) (x :: xs))
        ++ Json.newline_indent lvl ++ ["]"%char]).
    cbn [forallb]. rewrite !forallb_app, !newline_indent_text, sep_by_text.
    + reflexivity.
    + apply sep_text.
    + apply Forall_map. eapply Forall_impl; [|exact IH].
      intros y Hy. exact (Hy (S lvl)).
  - destruct items as [|kv kvs]; [reflexivity|].
    change (Json.encode lvl (Json.JObj (kv :: kvs))) with
      ("{"%char :: Json.newline_indent (S lvl)
        ++ Json.sep_by (","%char :: Json.newline_indent (S lvl))
                  (map (fun kv => Json.encode_string (fst kv) ++ [":"%char; " "%char]
                                    ++ Json.encode (S lvl) (snd kv)) (kv :: kvs))
        ++ Json.newline_indent lvl ++ ["}"%char]).
    cbn [forallb]. rewrite !forallb_app, !newline_indent_text, sep_by_text.
    + reflexivity.
    + apply sep_text.
    + apply Forall_map. eapply Forall_impl; [|exact IH].
      intros [k y] Hy. cbn [fst snd] in *.
      rewrite !forallb_app, encode_string_text, Hy. reflexivity.
Qed.

(** X14: the text [json.dump] writes (its default [ensure_ascii=True])
    holds only printable ASCII characters and line feeds, whatever the
    strings of the value hold: quotes, backslashes, control characters and
    non-ASCII characters all come out escaped. *)
Theorem dumps_printable_ascii : forall v,
  forallb json_text_char (list_ascii_of_string (Json.dumps v)) = true.
Proof.
  intro v. unfold Json.dumps. rewrite list_ascii_of_string_of_list_ascii.
  apply encode_text.
Qed.

(** ** Reading back the files the writers create *)

(** X15: when [sbom.csv] can be written and there are at least two rows,
    [create_sbom_csv] succeeds and the CSV reader gives back every row of
    the data from the file, cell by cell, with [None] read as the empty
    string; rows must not be empty. *)
Theorem sbom_csv_round_trip : forall env dir_path (sbom_data : list row) w,
  env_write env (path_join dir_path "sbom.csv") = WriteOk ->
  2 <= length sbom_data ->
  Forall (fun r => r <> []) sbom_data ->
  fst (create_sbom_csv env dir_path sbom_data w) = inr tt /\
  exists text,
    w_files (snd (create_sbom_csv env dir_path sbom_data w))
            (path_join dir_path "sbom.csv") = Some text /\
    Csv.read_rows text = map (map CsvFacts.csv_cell) sbom_data.
Proof.
  intros env dir_path sbom_data w Hw Hlen Hne.
  assert (E : (length sbom_data <? 2) = false) by (apply Nat.ltb_ge; lia).
  unfold create_sbom_csv. rewrite E.
  unfold bind, write_file, print, close_file. rewrite Hw.
  unfold ret. cbv beta iota. cbn [fst snd set_file w_files].
  split; [reflexivity|].
  exists (Csv.write_rows sbom_data). split.
  - now rewrite String.eqb_refl.
  - now apply CsvFacts.read_write_rows.
Qed.

Lemma sbom_csv_round_trip_witness :
  env_write env_lodash (path_join "/r" "sbom.csv") = WriteOk /\
  fst (create_sbom_csv env_lodash "/r"
         [HEADER; [PStr "a,b"; PNone; PStr "pip"; PStr "q" ; PStr "x"]] world0)
    = inr tt /\
  exists text,
    w_files (snd (create_sbom_csv env_lodash "/r"
                    [HEADER; [PStr "a,b"; PNone; PStr "pip";
                              PStr "q" ; PStr "x"]] world0))
            (path_join "/r" "sbom.csv") = Some text /\
    Csv.read_rows text =
    map (map CsvFacts.csv_cell) [HEADER; [PStr "a,b"; PNone; PStr "pip";
                                          PStr "q" ; PStr "x"]].
Proof.
  split; [reflexivity|].
  apply sbom_csv_round_trip;
    [reflexivity | simpl; lia | repeat constructor; discriminate].
Defined.

Lemma row_object_flat headers r :
  headers <> [] -> r <> [] -> JsonFacts.flat_obj (row_object headers r).
Proof.
  intros Hh Hr. eexists. split; [reflexivity|]. split.
  - destruct headers; [congruence|]. destruct r; [congruence|]. discriminate.
  - apply Forall_map. apply Forall_forall. intros [h v] _. now destruct v.
Qed.

(** X16: when [sbom.json] can be written and there are a header row and at
    least one data row, [create_sbom_json] succeeds and [json.loads] of the
    file gives back exactly the array of row objects that was dumped,
    provided the header and the rows are not empty. *)
Theorem sbom_json_round_trip :
  forall env dir_path (headers : row) (rows : list row) w,
  env_write env (path_join dir_path "sbom.json") = WriteOk ->
  headers <> [] -> rows <> [] -> Forall (fun r => r <> []) rows ->
  fst (create_sbom_json env dir_path (headers :: rows) w) = inr tt /\
  exists text,
    w_files (snd (create_sbom_json env dir_path (headers :: rows) w))
            (path_join dir_path "sbom.json") = Some text /\
    JsonRead.loads text = Some (sbom_json_value (headers :: rows)).
Proof.
  intros env dir_path headers rows w Hw Hh Hr Hne.
  assert (E : (length (headers :: rows) <? 2) = false)
    by (destruct rows; [congruence|]; reflexivity).
  unfold create_sbom_json. rewrite E.
  unfold bind, write_file, print, close_file. rewrite Hw.
  unfold ret. cbv beta iota. cbn [fst snd set_file w_files].
  split; [reflexivity|].
  exists (Json.dumps (sbom_json_value (headers :: rows))). split.
  - now rewrite String.eqb_refl.
  - unfold sbom_json_value. cbn [hd tl].
    apply JsonFacts.loads_flat_objs. apply Forall_map.
    eapply Forall_impl; [|exact Hne]. intros r Hrne.
    exact (row_object_flat headers r Hh Hrne).
Qed.

Lemma sbom_json_round_trip_witness :
  env_write env_lodash (path_join "/r" "sbom.json") = WriteOk /\
  fst (create_sbom_json env_lodash "/r" [HEADER; [PStr "a"; PNone]] world0)
    = inr tt /\
  exists text,
    w_files (snd (create_sbom_json env_lodash "/r"
                    [HEADER; [PStr "a"; PNone]] world0))
            (path_join "/r" "sbom.json") = Some text /\
    JsonRead.loads text = Some (sbom_json_value [HEADER; [PStr "a"; PNone]]).
Proof.
  split; [reflexivity|].
  apply sbom_json_round_trip;
    [reflexivity | discriminate | discriminate | repeat constructor].
  discriminate.
Defined.

(** ** Failures of the file system *)

(** X20: when the root directory cannot be listed ([iterdir] raises [e]:
    missing, a file, unreadable), a run raises [e] before printing anything
    and writes no file. *)
Theorem main_root_not_listable : forall env dir_path entries w e,
  env_iterdir env dir_path = Some e ->
  main env dir_path entries w = (inl e, w).
Proof.
  intros env dir_path entries w e H.
  unfold main, get_all_repos_at. rewrite H. reflexivity.
Qed.

Definition env_missing_root : Env := {|
  env_git := fun _ => git_ok;
  env_requirements := fun _ => Missing;
  env_package_json := fun _ => Missing;
  env_lock := fun _ => Missing;
  env_iterdir := fun _ => Some FileNotFoundError;
  env_write := fun _ => WriteOk
|}.

Lemma main_root_not_listable_witness :
  env_iterdir env_missing_root "/nowhere" = Some FileNotFoundError /\
  main env_missing_root "/nowhere" [] world0 = (inl FileNotFoundError, world0).
Proof.
  split; [reflexivity|].
  apply main_root_not_listable. reflexivity.
Defined.

(** X21: with data rows to report, when [sbom.csv] is written but opening
    [sbom.json] raises [e] (it is a directory, or read-only), the writers
    raise [e] after [sbom.csv] holds the whole CSV text and its save message
    is printed; [sbom.json] is left as it was. *)
Theorem writers_json_open_failure : forall env dir_path (data : list row) w e,
  2 <= length data ->
  env_write env (path_join dir_path "sbom.csv") = WriteOk ->
  env_write env (path_join dir_path "sbom.json") = OpenRaises e ->
  bind (create_sbom_csv env dir_path data)
       (fun _ => create_sbom_json env dir_path data) w =
  (inl e,
   {| w_log := w_log w ++ [("Saved SBOM in CSV format to '" ++
                             path_join dir_path "sbom.csv" ++ "'")%string];
      w_files := fun q => if String.eqb q (path_join dir_path "sbom.csv")
                          then Some (Csv.write_rows data) else w_files w q |}).
Proof.
  intros env dir_path data w e Hlen Hc Hj.
  assert (E : (length data <? 2) = false) by (apply Nat.ltb_ge; lia).
  unfold create_sbom_csv, create_sbom_json. rewrite E.
  cbv [bind write_file close_file print ret raise]. rewrite Hc, Hj.
  reflexivity.
Qed.

Definition env_json_dir : Env := {|
  env_git := fun _ => git_ok;
  env_requirements := fun _ => Missing;
  env_package_json := fun _ => Missing;
  env_lock := fun _ => Missing;
  env_iterdir := fun _ => None;
  env_write := fun p => if String.eqb p "/r/sbom.json"
                        then OpenRaises IsADirectoryError else WriteOk
|}.

Definition json_dir_data : list row :=
  [HEADER; [PStr "a"; PNone; PStr "pip"; PStr "q"; PStr "x"]].

Lemma writers_json_open_failure_witness :
  2 <= length json_dir_data /\
  env_write env_json_dir (path_join "/r" "sbom.csv") = WriteOk /\
  env_write env_json_dir (path_join "/r" "sbom.json") = OpenRaises IsADirectoryError /\
  bind (create_sbom_csv env_json_dir "/r" json_dir_data)
       (fun _ => create_sbom_json env_json_dir "/r" json_dir_data) world0 =
  (inl IsADirectoryError,
   {| w_log := w_log world0 ++ [("Saved SBOM in CSV format to '" ++
                                  path_join "/r" "sbom.csv" ++ "'")%string];
      w_files := fun q => if String.eqb q (path_join "/r" "sbom.csv")
                          then Some (Csv.write_rows json_dir_data)
                          else w_files world0 q |}).
Proof.
  split; [simpl; lia|]. split; [reflexivity|]. split; [reflexivity|].
  apply writers_json_open_failure; [simpl; lia | reflexivity | reflexivity].
Defined.

(** ** [get_cmd_arg] and the whole script *)

(** The outcome of [get_cmd_arg]: [sys.exit(code)], or the argument. *)
Inductive cmd_arg_result : Type :=
| CmdExit (code : nat)
| CmdArg (arg : string).

(** [argv] is [sys.argv]: the script name, then the arguments. *)
Definition get_cmd_arg (argv : list string) (w : World) : cmd_arg_result * World :=
  if negb (length argv =? 2)
  then (CmdExit 1,
        snd (print ("Error: this command take only 1 command line input but "
                    ++ nat_str (length argv - 1) ++ " were given")%string w))
  else (CmdArg (nth 1 argv EmptyString), w).

(** The end of a run: [sys.exit(code)], or the end of the [__main__]
    block, normal or by an uncaught exception. *)
Inductive script_result : Type :=
| ScriptExit (code : nat)
| ScriptEnd (r : exn + unit).

(** Lines 208-214; [entries] is the listing of the directory named by the
    argument. *)
Definition script (env : Env) (argv : list string) (entries : list DirEntry)
  (w : World) : script_result * World :=
  match get_cmd_arg argv w with
  | (CmdExit code, w') => (ScriptExit code, w')
  | (CmdArg dir_path, w') =>
      let (r, w'') := main env dir_path entries w' in (ScriptEnd r, w'')
  end.

(** X17: run with a number of arguments other than one, the script prints
    the error with the number of arguments given and exits with status 1,
    before it lists any directory or writes any file. *)
Theorem script_wrong_argument_count : forall env argv entries w,
  argv <> [] -> length argv <> 2 ->
  script env argv entries w =
  (ScriptExit 1,
   {| w_log := w_log w ++
        [("Error: this command take only 1 command line input but "
          ++ nat_str (length argv - 1) ++ " were given")%string];
      w_files := w_files w |}).
Proof.
  intros env argv entries w Hne Hlen. unfold script, get_cmd_arg.
  apply Nat.eqb_neq in Hlen. rewrite Hlen. reflexivity.
Qed.

Lemma script_wrong_argument_count_witness :
  script env_lodash ["sbom.py"; "/r"; "/s"]%string [entry_app] world0 =
  (ScriptExit 1,
   {| w_log := ["Error: this command take only 1 command line input but 2 were given"%string];
      w_files := w_files world0 |}).
Proof.
  apply (script_wrong_argument_count env_lodash ["sbom.py"; "/r"; "/s"]%string
           [entry_app] world0); [discriminate | discriminate].
Defined.

(** ** Decimal rendering *)

Lemma string_app_assoc (a b c : string) :
  ((a ++ b) ++ c)%string = (a ++ (b ++ c))%string.
Proof. induction a as [|x a IH]; simpl; congruence. Qed.

Lemma digits_go_acc f n acc :
  n < f -> digits_go f n acc = (digits_go f n EmptyString ++ acc)%string.
Proof.
  revert n acc. induction f as [|f IH]; intros n acc Hn; [lia|].
  cbn [digits_go]. destruct (n <? 10) eqn:E; [reflexivity|].
  apply Nat.ltb_ge in E.
  assert (Hd : n / 10 < f).
  { apply Nat.lt_le_trans with n; [apply Nat.div_lt; lia | lia]. }
  rewrite IH by exact Hd. rewrite (IH (n / 10) (String _ EmptyString)) by exact Hd.
  rewrite string_app_assoc. reflexivity.
Qed.

Lemma digits_go_fuel f g n acc :
  n < f -> n < g -> digits_go f n acc = digits_go g n acc.
Proof.
  revert g n acc. induction f as [|f IH]; intros g n acc Hf Hg; [lia|].
  destruct g as [|g]; [lia|]. cbn [digits_go].
  destruct (n <? 10) eqn:E; [reflexivity|].
  apply Nat.ltb_ge in E. apply IH.
  - apply Nat.lt_le_trans with n; [apply Nat.div_lt; lia | lia].
  - apply Nat.lt_le_trans with n; [apply Nat.div_lt; lia | lia].
Qed.

(** X18: the decimal rendering of a count (in the messages of lines 12 and
    42) writes a one-digit number as its digit, and [10 * q + d], for
    [q > 0] and a digit [d], as the rendering of [q] followed by [d]. *)
Theorem nat_str_decimal : forall q d,
  d < 10 ->
  nat_str d = String (ascii_of_nat (48 + d)) EmptyString /\
  (0 < q -> nat_str (10 * q + d) =
            (nat_str q ++ String (ascii_of_nat (48 + d)) EmptyString)%string).
Proof.
  intros q d Hd. split.
  - unfold nat_str. cbn [digits_go]. rewrite Nat.mod_small by exact Hd.
    apply Nat.ltb_lt in Hd. now rewrite Hd.
  - intro Hq. unfold nat_str. set (n := 10 * q + d).
    cbn [digits_go].
    assert (E : (n <? 10) = false) by (apply Nat.ltb_ge; unfold n; lia).
    assert (Hdiv : n / 10 = q).
    { unfold n. rewrite Nat.mul_comm, Nat.div_add_l by lia.
      rewrite Nat.div_small by exact Hd. lia. }
    assert (Hmod : n mod 10 = d).
    { unfold n. rewrite Nat.add_comm, Nat.mul_comm, Nat.Div0.mod_add.
      now apply Nat.mod_small. }
    rewrite E, Hdiv, Hmod.
    rewrite digits_go_acc by (unfold n; lia).
    f_equal. transitivity (digits_go (S q) q EmptyString);
      [apply digits_go_fuel; unfold n; lia | reflexivity].
Qed.

Lemma nat_str_decimal_witness :
  nat_str 2 = "2"%string /\ (0 < 4 -> nat_str 42 = "42"%string).
Proof. exact (nat_str_decimal 4 2 ltac:(lia)). Defined.

(** ** [DEPENDENCY_PATTERN] on a line [name op version] *)

(** The loop [rmatch] runs for a star, with its iteration count [f]. *)
Definition star_loop (fuel : nat) (r : Re.regex) (k : Re.cont) :=
  fix loop (f : nat) (pos : nat) (s : list ascii) (cs : Re.caps)
    : option Re.caps :=
    match f with
    | 0 => k pos s cs
    | S f' =>
        match Re.rmatch fuel r pos s cs
                (fun pos' s' cs' => if pos <? pos' then loop f' pos' s' cs' else None) with
        | Some res => Some res
        | None => k pos s cs
        end
    end.

Lemma rmatch_star fuel r pos s cs k :
  Re.rmatch fuel (Re.RStar r) pos s cs k = star_loop fuel r k fuel pos s cs.
Proof. reflexivity. Qed.

Lemma rmatch_seq fuel r1 r2 pos s cs k :
  Re.rmatch fuel (Re.RSeq r1 r2) pos s cs k =
  Re.rmatch fuel r1 pos s cs (fun pos' s' cs' => Re.rmatch fuel r2 pos' s' cs' k).
Proof. reflexivity. Qed.

Lemma rmatch_group fuel n r pos s cs k :
  Re.rmatch fuel (Re.RGroup n r) pos s cs k =
  Re.rmatch fuel r pos s cs (fun pos' s' cs' => k pos' s' ((n, (pos, pos')) :: cs')).
Proof. reflexivity. Qed.

Lemma rmatch_class fuel p x s pos cs k :
  p x = true -> Re.rmatch fuel (Re.RClass p) pos (x :: s) cs k = k (S pos) s cs.
Proof. intro H. simpl. now rewrite H. Qed.

Lemma rmatch_opt fuel r pos s cs k res :
  Re.rmatch fuel r pos s cs k = Some res ->
  Re.rmatch fuel (Re.ROpt r) pos s cs k = Some res.
Proof. intro H. simpl. now rewrite H. Qed.

(** A star over a character class is greedy: it takes the longest run of
    the class, then the continuation. *)
Lemma star_class_greedy fuel p k u t pos cs f res :
  forallb p u = true ->
  (match t with x :: _ => p x = false | [] => True end) ->
  length u <= f ->
  k (pos + length u) t cs = Some res ->
  star_loop fuel (Re.RClass p) k f pos (u ++ t) cs = Some res.
Proof.
  revert pos f. induction u as [|x u IH]; intros pos f Hu Ht Hf Hk.
  - rewrite Nat.add_0_r in Hk. destruct f as [|f]; [exact Hk|].
    simpl. destruct t as [|y t]; [exact Hk|]. now rewrite Ht.
  - destruct f as [|f]; [simpl in Hf; lia|].
    cbn [forallb] in Hu. apply andb_prop in Hu as [Hx Hu].
    cbn [star_loop app Re.rmatch]. rewrite Hx.
    replace (pos <? S pos) with true by (symmetry; apply Nat.ltb_lt; lia).
    assert (IH' := IH (S pos) f Hu Ht ltac:(simpl in Hf; lia)
                      ltac:(now replace (S pos + length u) with (pos + length (x :: u))
                              by (simpl; lia))).
    now rewrite IH'.
Qed.

Lemma star_class_greedy_all fuel p k u pos cs f res :
  forallb p u = true -> length u <= f ->
  k (pos + length u) [] cs = Some res ->
  star_loop fuel (Re.RClass p) k f pos u cs = Some res.
Proof.
  intros Hu Hf Hk.
  pose proof (star_class_greedy fuel p k u [] pos cs f res Hu I Hf Hk) as H.
  now rewrite app_nil_r in H.
Qed.

Lemma is_op_not_space x : Re.is_op x = true -> Py.isspace x = false.
Proof. destruct x as [[] [] [] [] [] [] [] []]; vm_compute; congruence. Qed.

(** The match of [DEPENDENCY_PATTERN] on [name ++ op ++ ws ++ rest]: a
    name without operator characters, a run of operator characters, white
    space, and a rest that starts with neither; group 1 is the name, group
    2 the operator with the white space, group 3 the rest. *)
Lemma dependency_pattern_match c N o O W R :
  Re.not_op c = true -> forallb Re.not_op N = true ->
  Re.is_op o = true -> forallb Re.is_op O = true ->
  forallb Py.isspace W = true ->
  (match W ++ R with x :: _ => Re.is_op x = false | [] => True end) ->
  (match R with x :: _ => Py.isspace x = false | [] => True end) ->
  forallb Re.not_newline R = true ->
  Re.rmatch (S (length (c :: N ++ o :: O ++ W ++ R))) Re.DEPENDENCY_PATTERN 0
            (c :: N ++ o :: O ++ W ++ R) [] (fun _ _ cs => Some cs) =
  Some [(3, (S (length N) + S (length O) + length W,
             S (length N) + S (length O) + length W + length R));
        (2, (S (length N), S (length N) + S (length O) + length W));
        (1, (0, S (length N)))].
Proof.
  intros Hc HN Ho HO HW HWR HR Hnl.
  set (F := S (length (c :: N ++ o :: O ++ W ++ R))).
  assert (HF : length N + length O + length W + length R + 2 < F).
  { unfold F. simpl. rewrite !length_app. simpl. rewrite !length_app. lia. }
  unfold Re.DEPENDENCY_PATTERN, Re.RPlus.
  rewrite rmatch_seq, rmatch_group, rmatch_seq, rmatch_class by exact Hc.
  rewrite rmatch_star. apply star_class_greedy;
    [exact HN | cbn; unfold Re.not_op; now rewrite Ho | lia |].
  cbv beta.
  rewrite rmatch_seq, rmatch_group, rmatch_seq, rmatch_star.
  apply (star_class_greedy _ _ _ []); [reflexivity | exact (is_op_not_space _ Ho) | simpl; lia |].
  cbv beta.
  rewrite rmatch_seq, rmatch_seq, rmatch_class by exact Ho.
  rewrite rmatch_star. apply star_class_greedy; [exact HO | exact HWR | lia |].
  cbv beta. rewrite rmatch_star. apply star_class_greedy; [exact HW | exact HR | lia |].
  cbv beta. apply rmatch_opt. rewrite rmatch_group, rmatch_star.
  apply star_class_greedy_all; [exact Hnl | lia |].
  cbv beta. cbn [length].
  repeat match goal with
         | |- Some _ = Some _ => f_equal
         | |- (_ :: _) = (_ :: _) => f_equal
         | |- (_, _) = (_, _) => f_equal
         end; lia.
Qed.

Lemma substring_prefix B C :
  substring 0 (length B) (string_of_list_ascii (B ++ C)) = string_of_list_ascii B.
Proof.
  induction B as [|y B IHB]; simpl; [now destruct (string_of_list_ascii C)|].
  now rewrite IHB.
Qed.

Lemma substring_app A B C :
  substring (length A) (length B) (string_of_list_ascii (A ++ B ++ C)) =
  string_of_list_ascii B.
Proof. induction A as [|x A IH]; [exact (substring_prefix B C) | exact IH]. Qed.

Lemma string_of_list_ascii_app A B :
  string_of_list_ascii (A ++ B) =
  (string_of_list_ascii A ++ string_of_list_ascii B)%string.
Proof. induction A as [|x A IH]; simpl; congruence. Qed.

Lemma forallb_andb_split {A} (f g : A -> bool) l :
  forallb (fun x => f x && g x) l = forallb f l && forallb g l.
Proof.
  induction l as [|x l IH]; [reflexivity|]. cbn [forallb]. rewrite IH.
  destruct (f x), (g x), (forallb f l), (forallb g l); reflexivity.
Qed.

Lemma is_op_no_hash x : Re.is_op x = true -> no_hash x = true.
Proof. destruct x as [[] [] [] [] [] [] [] []]; vm_compute; congruence. Qed.

Lemma ops_no_hash l : forallb Re.is_op l = true -> forallb no_hash l = true.
Proof.
  induction l as [|x l IH]; [reflexivity|]. intro H. cbn [forallb] in *.
  apply andb_prop in H as [Hx H]. now rewrite is_op_no_hash, IH.
Qed.

Lemma lstrip_keep_head x l : Py.isspace x = false -> Py.lstrip_l (x :: l) = x :: l.
Proof. intro H. simpl. now rewrite H. Qed.

Lemma lstrip_rev_app A B :
  B <> [] -> Py.lstrip_l (rev B) = rev B ->
  Py.lstrip_l (rev (A ++ B)) = rev (A ++ B).
Proof.
  intros HB H. rewrite rev_app_distr, lstrip_app, H.
  destruct (rev B) eqn:E; [|reflexivity].
  apply (f_equal (@rev ascii)) in E. rewrite rev_involutive in E.
  simpl in E. congruence.
Qed.

Lemma strip_l_id l :
  Py.lstrip_l l = l -> Py.lstrip_l (rev l) = rev l -> Py.strip_l l = l.
Proof. intros H1 H2. unfold Py.strip_l. now rewrite H1, H2, rev_involutive. Qed.

Lemma lstrip_split l :
  exists p, l = p ++ Py.lstrip_l l /\ forallb Py.isspace p = true.
Proof.
  induction l as [|c l [p [Hp Hs]]]; [now exists []|].
  simpl. destruct (Py.isspace c) eqn:Hc.
  - exists (c :: p). simpl. rewrite Hc, Hs. split; [congruence | reflexivity].
  - now exists [].
Qed.

Lemma lstrip_all_op l : forallb Re.is_op l = true -> Py.lstrip_l l = l.
Proof.
  destruct l as [|x l]; [reflexivity|]. intro H. cbn [forallb] in H.
  apply andb_prop in H as [Hx _]. apply lstrip_keep_head. exact (is_op_not_space _ Hx).
Qed.

(** The last character of [o :: O ++ V] is not white space, when [V] ends
    with a non-space or is empty. *)
Lemma rstrip_op_version o O V :
  forallb Re.is_op (o :: O) = true ->
  (match rev V with x :: _ => Py.isspace x = false | [] => True end) ->
  Py.lstrip_l (rev (o :: O ++ V)) = rev (o :: O ++ V).
Proof.
  intros HO HV. destruct V as [|v V'] eqn:EV.
  - rewrite app_nil_r. apply lstrip_all_op. now rewrite forallb_rev_eq.
  - rewrite <- EV in HV |- *. change (o :: O ++ V) with ((o :: O) ++ V).
    apply lstrip_rev_app; [subst; discriminate|].
    destruct (rev V) as [|y ys]; [reflexivity|]. simpl. now rewrite HV.
Qed.

(** The pip parser on [name op version] as lists of characters. *)
Lemma parse_line_list c N o O V :
  forallb (fun x => Re.not_op x && no_hash x) (c :: N) = true ->
  Py.isspace c = false ->
  forallb Re.is_op (o :: O) = true ->
  forallb (fun x => no_hash x && Re.not_newline x) V = true ->
  (match V with x :: _ => Re.is_op x = false | [] => True end) ->
  (match rev V with x :: _ => Py.isspace x = false | [] => True end) ->
  parse_requirement_line (string_of_list_ascii (c :: N ++ o :: O ++ V)) =
  Some (Py.strip (string_of_list_ascii (c :: N)),
        match V with
        | [] => PNone
        | _ => PStr (string_of_list_ascii (o :: O ++ V))
        end).
Proof.
  intros HN Hc HO HV Hhd Hlast.
  rewrite forallb_andb_split in HN, HV.
  apply andb_prop in HN as [HNop HNh]. apply andb_prop in HV as [HVh HVnl].
  set (L := c :: N ++ o :: O ++ V).
  assert (HL : Py.strip (string_of_list_ascii L) = string_of_list_ascii L).
  { unfold Py.strip. rewrite list_ascii_of_string_of_list_ascii.
    f_equal. apply strip_l_id; [now apply lstrip_keep_head|].
    unfold L. change (c :: N ++ o :: O ++ V) with ((c :: N) ++ (o :: O ++ V)).
    apply lstrip_rev_app; [discriminate|]. now apply rstrip_op_version. }
  assert (Hh : forallb no_hash L = true).
  { unfold L. change (c :: N ++ o :: O ++ V) with ((c :: N) ++ (o :: O ++ V)).
    rewrite forallb_app, HNh. change (o :: O ++ V) with ((o :: O) ++ V).
    rewrite forallb_app, HVh, andb_true_r. now apply ops_no_hash. }
  destruct (lstrip_split V) as (W & HVW & HW).
  set (R := Py.lstrip_l V) in HVW.
  cbn [forallb] in HNop, HO.
  apply andb_prop in HNop as [Hcop HNop]. apply andb_prop in HO as [Ho HO].
  assert (Hm : Re.re_match Re.DEPENDENCY_PATTERN (string_of_list_ascii L) =
    Some [(3, (S (length N) + S (length O) + length W,
               S (length N) + S (length O) + length W + length R));
          (2, (S (length N), S (length N) + S (length O) + length W));
          (1, (0, S (length N)))]).
  { unfold Re.re_match. rewrite list_ascii_of_string_of_list_ascii.
    unfold L. rewrite HVW. apply dependency_pattern_match; try assumption.
    - now rewrite <- HVW.
    - destruct R as [|x t] eqn:ER; [exact I|]. exact (lstrip_head V x t ER).
    - apply lstrip_forallb. exact HVnl. }
  assert (G1 : Re.group (string_of_list_ascii L)
                 [(3, (S (length N) + S (length O) + length W,
                       S (length N) + S (length O) + length W + length R));
                  (2, (S (length N), S (length N) + S (length O) + length W));
                  (1, (0, S (length N)))] 1 =
               Some (string_of_list_ascii (c :: N))).
  { unfold Re.group. cbn [Re.caps_get Nat.eqb]. f_equal.
    replace (S (length N) - 0) with (length (c :: N)) by (simpl; lia).
    replace L with ([] ++ (c :: N) ++ (o :: O ++ V)) by reflexivity.
    apply (substring_app []). }
  assert (G2 : Re.group (string_of_list_ascii L)
                 [(3, (S (length N) + S (length O) + length W,
                       S (length N) + S (length O) + length W + length R));
                  (2, (S (length N), S (length N) + S (length O) + length W));
                  (1, (0, S (length N)))] 2 =
               Some (string_of_list_ascii (o :: O ++ W))).
  { unfold Re.group. cbn [Re.caps_get Nat.eqb]. f_equal.
    replace (S (length N) + S (length O) + length W - S (length N))
      with (length (o :: O ++ W)) by (simpl; rewrite length_app; lia).
    replace (S (length N)) with (length (c :: N)) by reflexivity.
    replace L with ((c :: N) ++ (o :: O ++ W) ++ R)
      by (unfold L; rewrite HVW; simpl; now rewrite <- !app_assoc).
    apply substring_app. }
  assert (G3 : Re.group (string_of_list_ascii L)
                 [(3, (S (length N) + S (length O) + length W,
                       S (length N) + S (length O) + length W + length R));
                  (2, (S (length N), S (length N) + S (length O) + length W));
                  (1, (0, S (length N)))] 3 =
               Some (string_of_list_ascii R)).
  { unfold Re.group. cbn [Re.caps_get Nat.eqb]. f_equal.
    replace (S (length N) + S (length O) + length W + length R
             - (S (length N) + S (length O) + length W))
      with (length R) by lia.
    replace (S (length N) + S (length O) + length W)
      with (length ((c :: N) ++ (o :: O) ++ W))
      by (rewrite !length_app; simpl; lia).
    replace L with (((c :: N) ++ (o :: O) ++ W) ++ R ++ [])
      by (unfold L; rewrite app_nil_r, HVW;
          repeat (rewrite <- app_assoc || rewrite <- app_comm_cons); reflexivity).
    apply substring_app. }
  assert (HE : String.eqb (string_of_list_ascii L) EmptyString = false)
    by (unfold L; reflexivity).
  assert (HS : Py.startswith "#" (string_of_list_ascii L) = false).
  { unfold L. apply startswith_hash_false.
    cbn [forallb] in HNh. now apply andb_prop in HNh. }
  unfold parse_requirement_line. rewrite HL, before_char_no_hash by exact Hh.
  rewrite HL, Hm, G1, G2, G3, HE, HS. cbn [orb].
  f_equal. f_equal.
  destruct R as [|r R'] eqn:ER.
  - rewrite app_nil_r in HVW. subst V.
    destruct W as [|w W']; [reflexivity|].
    exfalso. destruct (rev (w :: W')) as [|y ys] eqn:E.
    { simpl in E. destruct (rev W'); discriminate. }
    rewrite <- forallb_rev_eq, E in HW. cbn [forallb] in HW.
    apply andb_prop in HW as [Hy _]. congruence.
  - change (Py.truthy (Some (string_of_list_ascii (r :: R')))) with true.
    cbv beta iota.
    destruct V as [|v V'] eqn:EV; [destruct W; discriminate|].
    rewrite <- EV in *. rewrite <- string_of_list_ascii_app.
    replace ((o :: O ++ W) ++ r :: R') with (o :: O ++ V)
      by (rewrite HVW; simpl; now rewrite <- app_assoc).
    f_equal. unfold Py.strip. rewrite list_ascii_of_string_of_list_ascii.
    f_equal. apply strip_l_id.
    + apply lstrip_keep_head. exact (is_op_not_space _ Ho).
    + apply rstrip_op_version; [cbn [forallb]; now rewrite Ho, HO | exact Hlast].
Qed.

(** X19: on a line [name op version] of [requirements.txt], where the
    name has no operator character and starts without white space, [op] is
    a non-empty run of [<=>~], the version does not start with an operator
    character nor end with white space, and there is no [#] nor line feed,
    the pip parser gives the stripped name and, as version, [op ++ version]
    (white space between them kept), or [None] when the version is empty. *)
Theorem parse_requirement_line_op_version : forall name op version,
  forallb (fun x => Re.not_op x && no_hash x) (list_ascii_of_string name) = true ->
  (match list_ascii_of_string name with
   | x :: _ => Py.isspace x = false | [] => False end) ->
  op <> EmptyString ->
  forallb Re.is_op (list_ascii_of_string op) = true ->
  forallb (fun x => no_hash x && Re.not_newline x)
          (list_ascii_of_string version) = true ->
  (match list_ascii_of_string version with
   | x :: _ => Re.is_op x = false | [] => True end) ->
  (match rev (list_ascii_of_string version) with
   | x :: _ => Py.isspace x = false | [] => True end) ->
  parse_requirement_line (name ++ op ++ version) =
  Some (Py.strip name,
        if String.eqb version EmptyString then PNone else PStr (op ++ version)).
Proof.
  intros name op version Hn Hc Hop HO HV Hhd Hlast.
  destruct (list_ascii_of_string name) as [|c N] eqn:EN; [contradiction|].
  destruct op as [|o op']; [congruence|].
  apply (f_equal string_of_list_ascii) in EN.
  rewrite string_of_list_ascii_of_string in EN. subst name.
  set (O := list_ascii_of_string op') in *.
  set (V := list_ascii_of_string version) in *.
  assert (Hline : (string_of_list_ascii (c :: N) ++ String o op' ++ version)%string =
                  string_of_list_ascii (c :: N ++ o :: O ++ V)).
  { change (c :: N ++ o :: O ++ V) with ((c :: N) ++ (o :: O) ++ V).
    rewrite !string_of_list_ascii_app. unfold O, V.
    cbn [string_of_list_ascii].
    now rewrite !string_of_list_ascii_of_string. }
  rewrite Hline, parse_line_list; try assumption.
  destruct version as [|v version'].
  - reflexivity.
  - unfold V, O. cbn [list_ascii_of_string String.eqb].
    cbn [string_of_list_ascii String.append].
    do 3 f_equal. rewrite string_of_list_ascii_app.
    cbn [string_of_list_ascii].
    now rewrite !string_of_list_ascii_of_string.
Qed.

Lemma parse_requirement_line_op_version_witness :
  parse_requirement_line ("flask " ++ ">=" ++ " 2.0") =
  Some (Py.strip "flask ",
        if String.eqb " 2.0" EmptyString then PNone else PStr (">=" ++ " 2.0")).
Proof.
  apply parse_requirement_line_op_version;
    try reflexivity; discriminate.
Defined.
